(** * TinyDB two-phase-locking transaction manager

    A shallow embedding of [src/concurrency/two_phase_locking.cpp]
    ([TwoPLManager]) and the properties of its operations.

    The manager mutates a transaction context through a pointer, calls
    into the lock manager, the table heap and the transaction map, and
    finally [delete]s the context.  The embedding is a state-and-fault
    monad over a [World] that holds the heap of allocated contexts, the
    transaction map, the table storage and a chronological trace of the
    calls the manager makes on its collaborators. *)

From stdpp Require Import base option list gmap sets strings.

Module TwoPL.

(** ** Identifiers *)

(** Modelled from the spec: [RID] is declared outside this source file; it
    is an opaque, hashable 64-bit tuple locator. *)
Abbreviation RID := N (only parsing).
(** Modelled from the spec: [txn_id_t] is the 64-bit transaction id. *)
Abbreviation txn_id_t := N (only parsing).
(** The address of a heap-allocated [TransactionContext]. *)
Abbreviation Ptr := positive (only parsing).

(** ** Enumerations *)

Module IsolationLevel.
Inductive t :=
| READ_UNCOMMITTED | READ_COMMITTED | REPEATABLE_READ | SERIALIZABLE.
#[global] Instance eq_dec : EqDecision t.
Proof. solve_decision. Defined.
End IsolationLevel.

(** Modelled from the spec: the context's status values; the source only
    uses them through [IsAborted], [SetAborted] and [SetCommitted]. *)
Module TransactionState.
Inductive t := GROWING | SHRINKING | COMMITTED | ABORTED.
#[global] Instance eq_dec : EqDecision t.
Proof. solve_decision. Defined.
End TransactionState.

(** Modelled from the spec: the error kinds; the source names only
    [ErrorCode::SKIP] and the default-constructed (successful) [Result()]. *)
Module ErrorCode.
Inductive t := OK | SKIP | ABORTED | STORAGE_ERROR | STATE_VIOLATION.
#[global] Instance eq_dec : EqDecision t.
Proof. solve_decision. Defined.
End ErrorCode.

(** [Result<>] carries just an error code; [Result()] is success. *)
Definition Result : Type := ErrorCode.t.
Definition Result_default : Result := ErrorCode.OK.

(** ** Collaborators

    The table heap, the registered thunks and the lock manager's
    scheduling decisions are outside this source file; the manager is
    verified against any choice of them.  A thunk is taken to act on the
    table heaps only, as the undo and redo calls of the spec do. *)
Class Collaborators := {
  (** a tuple of a table *)
  Tuple : Type;
  (** [TableInfo], the handle whose [table_] is read *)
  TableInfo : Type;
  (** the contents of the table heaps *)
  Storage : Type;
  (** [table_->GetTuple(rid, tuple)]: [None] is the [false] return *)
  GetTuple : Storage → TableInfo → RID → option Tuple;
  (** a registered [std::function<void()>] *)
  Action : Type;
  (** what calling the thunk does to the table heaps *)
  run_action : Action → Storage → Storage;
  (** whether a blocking [LockShared] request of a transaction on a RID
      ends with the lock granted ([true]) or with the transaction chosen
      as deadlock victim ([false]) *)
  lm_grants : txn_id_t → RID → bool
}.

Section Model.
Context {collab : Collaborators}.

(** ** Transaction context *)

(** Modelled from the spec: [TwoPLContext] is declared outside this source
    file.  The lock sets are hashed sets of RIDs; the action queues are
    sequences in insertion order (registration appends). *)
Record TwoPLContext := mkContext {
  txn_id_ : txn_id_t;
  isolation_level_ : IsolationLevel.t;
  state_ : TransactionState.t;
  shared_lock_set_ : gset RID;
  exclusive_lock_set_ : gset RID;
  commit_action_ : list Action;
  abort_action_ : list Action
}.

Definition set_state (s : TransactionState.t) (c : TwoPLContext)
  : TwoPLContext :=
  mkContext (txn_id_ c) (isolation_level_ c) s
            (shared_lock_set_ c) (exclusive_lock_set_ c)
            (commit_action_ c) (abort_action_ c).

Definition set_lock_sets (sh ex : gset RID) (c : TwoPLContext) : TwoPLContext :=
  mkContext (txn_id_ c) (isolation_level_ c) (state_ c) sh ex
            (commit_action_ c) (abort_action_ c).

(** ** Calls on collaborators, as recorded in the trace *)

Inductive Event :=
| EvNew (p : Ptr)
| EvAddTransactionContext (t : txn_id_t) (p : Ptr)
| EvLockShared (t : txn_id_t) (rid : RID)
| EvUnlock (t : txn_id_t) (rid : RID)
| EvGetTuple (ti : TableInfo) (rid : RID)
| EvSetCommitted (t : txn_id_t)
| EvSetAborted (t : txn_id_t)
| EvAction (a : Action)
| EvRemoveTransactionContext (t : txn_id_t)
| EvDelete (p : Ptr).

(** ** World and monad *)

Record World := mkWorld {
  (** contexts allocated with [new] and not yet [delete]d *)
  heap : gmap Ptr TwoPLContext;
  (** the transaction map, [txn_map_] *)
  txn_map_ : gmap txn_id_t Ptr;
  (** the atomic counter [next_txn_id_] *)
  next_txn_id_ : N;
  (** the table heaps *)
  storage : Storage;
  (** the calls made so far, oldest first *)
  trace : list Event
}.

Inductive Fault :=
| AssertionFailed (msg : string)
| UseAfterFree (p : Ptr).

(** A call either returns a value, or stops at a fault; both leave the
    world as it was at that point. *)
Inductive Outcome (A : Type) :=
| Returned (a : A) (w : World)
| Crashed (f : Fault) (w : World).
#[global] Arguments Returned {A} a w.
#[global] Arguments Crashed {A} f w.

Definition M (A : Type) : Type := World → Outcome A.

#[global] Instance M_ret : MRet M := λ A a w, Returned a w.

#[global] Instance M_bind : MBind M := λ A B k m w,
  match m w with
  | Returned a w' => k a w'
  | Crashed f w' => Crashed f w'
  end.

Definition crash {A} (f : Fault) : M A := λ w, Crashed f w.

Definition emit (e : Event) : M unit := λ w,
  Returned tt (mkWorld (heap w) (txn_map_ w) (next_txn_id_ w) (storage w)
                       (trace w ++ [e])).

(** Dereferencing a context pointer.  Going through a pointer whose
    context has been [delete]d is undefined in the source; here it is a
    fault. *)
Definition deref (p : Ptr) : M TwoPLContext := λ w,
  match heap w !! p with
  | Some c => Returned c w
  | None => Crashed (UseAfterFree p) w
  end.

Definition assign (p : Ptr) (c : TwoPLContext) : M unit := λ w,
  Returned tt (mkWorld (<[p := c]> (heap w)) (txn_map_ w) (next_txn_id_ w)
                       (storage w) (trace w)).

(** [for (auto x : xs) body(x)] *)
Fixpoint for_each {A} (xs : list A) (body : A → M unit) : M unit :=
  match xs with
  | [] => mret tt
  | x :: xs' => body x;; for_each xs' body
  end.

(** Modelled from the spec: the macro [TINYDB_ASSERT(expr, message)] is
    defined outside this source file; a false expression stops the call
    with the message, before anything else is done. *)
Definition TINYDB_ASSERT (expr : bool) (message : string) : M unit :=
  if expr then mret tt else crash (AssertionFailed message).

(** ** Context helpers *)

(** Modelled from the spec: [TransactionContext::IsAborted] is declared
    outside this source file; it tells whether the state is ABORTED. *)
Definition IsAborted (p : Ptr) : M bool :=
  c ← deref p; mret (bool_decide (state_ c = TransactionState.ABORTED)).

(** Modelled from the spec: [TwoPLContext::IsSharedLocked] is declared
    outside this source file; membership in the shared lock set. *)
Definition IsSharedLocked (p : Ptr) (rid : RID) : M bool :=
  c ← deref p; mret (bool_decide (rid ∈ shared_lock_set_ c)).

(** Modelled from the spec: [TwoPLContext::IsExclusiveLocked] is declared
    outside this source file; membership in the exclusive lock set. *)
Definition IsExclusiveLocked (p : Ptr) (rid : RID) : M bool :=
  c ← deref p; mret (bool_decide (rid ∈ exclusive_lock_set_ c)).

(** Modelled from the spec: [TransactionContext::GetTxnId] is declared
    outside this source file. *)
Definition GetTxnId (p : Ptr) : M txn_id_t :=
  c ← deref p; mret (txn_id_ c).

(** Modelled from the spec: [TransactionContext::SetCommitted] is
    declared outside this source file; the transition to COMMITTED. *)
Definition SetCommitted (p : Ptr) : M unit :=
  c ← deref p;
  emit (EvSetCommitted (txn_id_ c));;
  assign p (set_state TransactionState.COMMITTED c).

(** Modelled from the spec: [TransactionContext::SetAborted] is declared
    outside this source file; the transition to ABORTED. *)
Definition SetAborted (p : Ptr) : M unit :=
  c ← deref p;
  emit (EvSetAborted (txn_id_ c));;
  assign p (set_state TransactionState.ABORTED c).

(** Calling a registered thunk. *)
Definition call (a : Action) : M unit := λ w,
  Returned tt (mkWorld (heap w) (txn_map_ w) (next_txn_id_ w)
                       (run_action a (storage w)) (trace w ++ [EvAction a])).

(** ** Lock manager *)

(** Modelled from the spec: [LockManager::LockShared] is declared outside
    this source file.  It blocks; when granted it adds the RID to the
    context's shared set, and when the transaction is chosen as deadlock
    victim it sets the context's state to ABORTED and fails.  The trace
    records the manager's call, not what the lock manager does inside. *)
Definition LockShared (p : Ptr) (rid : RID) : M bool :=
  c ← deref p;
  emit (EvLockShared (txn_id_ c) rid);;
  if lm_grants (txn_id_ c) rid
  then assign p (set_lock_sets ({[rid]} ∪ shared_lock_set_ c)
                               (exclusive_lock_set_ c) c);; mret true
  else assign p (set_state TransactionState.ABORTED c);; mret false.

(** Modelled from the spec: [LockManager::Unlock] is declared outside
    this source file.  It releases whichever mode is held and removes the
    RID from the corresponding set (erasing it from a set that does not
    hold it changes nothing); it never blocks. *)
Definition Unlock (p : Ptr) (rid : RID) : M bool :=
  c ← deref p;
  emit (EvUnlock (txn_id_ c) rid);;
  assign p (set_lock_sets (shared_lock_set_ c ∖ {[rid]})
                          (exclusive_lock_set_ c ∖ {[rid]}) c);;
  mret true.

(** ** Table heap *)

(** [table_info->table_->GetTuple(rid, tuple)]; reading does not change
    the table heaps. *)
Definition table_GetTuple (ti : TableInfo) (rid : RID)
  : M (option Tuple) := λ w,
  Returned (GetTuple (storage w) ti rid)
           (mkWorld (heap w) (txn_map_ w) (next_txn_id_ w) (storage w)
                    (trace w ++ [EvGetTuple ti rid])).

(** ** Transaction map *)

(** Modelled from the spec: [TransactionMap::AddTransactionContext] is
    declared outside this source file; the map takes a transaction id to
    its context. *)
Definition AddTransactionContext (t : txn_id_t) (p : Ptr) : M unit := λ w,
  Returned tt (mkWorld (heap w) (<[t := p]> (txn_map_ w)) (next_txn_id_ w)
                       (storage w) (trace w ++ [EvAddTransactionContext t p])).

(** Modelled from the spec: [TransactionMap::RemoveTransactionContext] is
    declared outside this source file. *)
Definition RemoveTransactionContext (t : txn_id_t) : M unit := λ w,
  Returned tt (mkWorld (heap w) (delete t (txn_map_ w)) (next_txn_id_ w)
                       (storage w) (trace w ++ [EvRemoveTransactionContext t])).

(** ** Allocation *)

(** Modelled from the spec: the constructor of [TwoPLContext] is declared
    outside this source file.  [new TwoPLContext(txn_id, isolation_level)]
    gives a context in GROWING state with empty lock sets and action
    queues, at a fresh address. *)
Definition new_TwoPLContext (t : txn_id_t) (lvl : IsolationLevel.t)
  : M Ptr := λ w,
  let p := fresh (dom (heap w)) in
  let c := mkContext t lvl TransactionState.GROWING ∅ ∅ [] [] in
  Returned p (mkWorld (<[p := c]> (heap w))
                      (txn_map_ w) (next_txn_id_ w) (storage w)
                      (trace w ++ [EvNew p])).

(** [delete txn_context] *)
Definition delete_context (p : Ptr) : M unit := λ w,
  match heap w !! p with
  | Some _ => Returned tt (mkWorld (delete p (heap w)) (txn_map_ w)
                                   (next_txn_id_ w) (storage w)
                                   (trace w ++ [EvDelete p]))
  | None => Crashed (UseAfterFree p) w
  end.

(** [next_txn_id_.fetch_add(1)]; the counter is declared outside this
    source file and is 64 bits wide by the spec. *)
Definition fetch_add_next_txn_id : M txn_id_t := λ w,
  Returned (next_txn_id_ w)
           (mkWorld (heap w) (txn_map_ w) ((next_txn_id_ w + 1) mod 2 ^ 64)%N
                    (storage w) (trace w)).

(** ** TwoPLManager *)

Definition aborted_msg : string := "Trying to executing aborted transaction".

(** [TwoPLManager::Read].  The returned pair is the [Result<>] and what
    was written through the [tuple] out-parameter. *)
Definition Read (txn_context : Ptr) (rid : RID) (table_info : TableInfo)
  : M (Result * option Tuple) :=
  aborted ← IsAborted txn_context;
  TINYDB_ASSERT (negb aborted) aborted_msg;;
  let context := txn_context in
  c ← deref context;
  sh ← IsSharedLocked context rid;
  ex ← IsExclusiveLocked context rid;
  (if bool_decide (isolation_level_ c ≠ IsolationLevel.READ_UNCOMMITTED)
      && negb sh && negb ex
   then _ ← LockShared context rid; mret tt
   else mret tt);;
  let res := Result_default in
  got ← table_GetTuple table_info rid;
  let res := if got is Some _ then res else ErrorCode.SKIP in
  c ← deref context;
  sh ← IsSharedLocked context rid;
  (if bool_decide (isolation_level_ c = IsolationLevel.READ_COMMITTED) && sh
   then _ ← Unlock context rid; mret tt
   else mret tt);;
  mret (res, got).

(** [TwoPLManager::Insert]: the body ends after the assertion and the
    cast; nothing is written through [rid]. *)
Definition Insert (txn_context : Ptr) (tuple : Tuple) (table_info : TableInfo)
  : M unit :=
  aborted ← IsAborted txn_context;
  TINYDB_ASSERT (negb aborted) aborted_msg;;
  mret tt.

(** [TwoPLManager::Delete] *)
Definition Delete (txn_context : Ptr) (rid : RID) (table_info : TableInfo)
  : M unit :=
  aborted ← IsAborted txn_context;
  TINYDB_ASSERT (negb aborted) aborted_msg.

(** [TwoPLManager::Update] *)
Definition Update (txn_context : Ptr) (tuple : Tuple) (rid : RID)
                  (table_info : TableInfo) : M unit :=
  aborted ← IsAborted txn_context;
  TINYDB_ASSERT (negb aborted) aborted_msg.

(** [TwoPLManager::Begin] *)
Definition Begin (isolation_level : IsolationLevel.t) : M Ptr :=
  txn_id ← fetch_add_next_txn_id;
  context ← new_TwoPLContext txn_id isolation_level;
  AddTransactionContext txn_id context;;
  mret context.

(** [TwoPLManager::ReleaseAllLocks]: the two lock sets are first copied
    into the local [lock_set]; the loop then unlocks each of its
    elements, in the order in which the set enumerates them. *)
Definition ReleaseAllLocks (txn_context : Ptr) : M unit :=
  let context := txn_context in
  c ← deref context;
  let lock_set : gset RID := ∅ in
  let lock_set := lock_set ∪ exclusive_lock_set_ c in
  let lock_set := lock_set ∪ shared_lock_set_ c in
  for_each (elements lock_set) (λ rid, _ ← Unlock context rid; mret tt).

(** [TwoPLManager::Commit] *)
Definition Commit (txn_context : Ptr) : M unit :=
  let context := txn_context in
  SetCommitted context;;
  c ← deref context;
  for_each (commit_action_ c) call;;
  ReleaseAllLocks txn_context;;
  t ← GetTxnId txn_context;
  RemoveTransactionContext t;;
  delete_context txn_context.

(** [TwoPLManager::Abort] *)
Definition Abort (txn_context : Ptr) : M unit :=
  let context := txn_context in
  SetAborted context;;
  c ← deref context;
  for_each (abort_action_ c) call;;
  ReleaseAllLocks txn_context;;
  t ← GetTxnId txn_context;
  RemoveTransactionContext t;;
  delete_context txn_context.

(** ** Reading a trace *)

(** The [LockShared] requests of a trace, oldest first. *)
Definition lock_shared_calls (evs : list Event) : list (txn_id_t * RID) :=
  omap (λ e, if e is EvLockShared t rid then Some (t, rid) else None) evs.

(** The [Unlock] calls of a trace, oldest first. *)
Definition unlock_calls (evs : list Event) : list (txn_id_t * RID) :=
  omap (λ e, if e is EvUnlock t rid then Some (t, rid) else None) evs.

(** The thunks called in a trace, oldest first. *)
Definition actions_called (evs : list Event) : list Action :=
  omap (λ e, if e is EvAction a then Some a else None) evs.

(** The locks a context pointer holds: none once the context is gone. *)
Definition held_locks (w : World) (p : Ptr) : gset RID :=
  match heap w !! p with
  | Some c => shared_lock_set_ c ∪ exclusive_lock_set_ c
  | None => ∅
  end.

(** Invariant 1 of the data model: no RID is in both lock sets. *)
Definition lock_sets_disjoint (c : TwoPLContext) : Prop :=
  shared_lock_set_ c ## exclusive_lock_set_ c.

(** A call is refused when it stops at the liveness assertion with the
    world untouched: no call on any collaborator has been made. *)
Definition state_violation {A} (m : M A) (w : World) : Prop :=
  m w = Crashed (AssertionFailed aborted_msg) w.

(** ** The three steps of [Read] on a context value *)

(** The condition of the first [if] of [Read]. *)
Definition Read_requests_lock (c : TwoPLContext) (rid : RID) : bool :=
  bool_decide (isolation_level_ c ≠ IsolationLevel.READ_UNCOMMITTED)
  && negb (bool_decide (rid ∈ shared_lock_set_ c))
  && negb (bool_decide (rid ∈ exclusive_lock_set_ c)).

(** The context once the first [if] of [Read] is over. *)
Definition Read_after_acquire (c : TwoPLContext) (rid : RID) : TwoPLContext :=
  if Read_requests_lock c rid then
    if lm_grants (txn_id_ c) rid
    then set_lock_sets ({[rid]} ∪ shared_lock_set_ c)
                       (exclusive_lock_set_ c) c
    else set_state TransactionState.ABORTED c
  else c.

(** The condition of the last [if] of [Read], on the context as it is
    after the fetch. *)
Definition Read_releases_lock (c1 : TwoPLContext) (rid : RID) : bool :=
  bool_decide (isolation_level_ c1 = IsolationLevel.READ_COMMITTED)
  && bool_decide (rid ∈ shared_lock_set_ c1).

(** The context when [Read] returns. *)
Definition Read_after_release (c1 : TwoPLContext) (rid : RID) : TwoPLContext :=
  if Read_releases_lock c1 rid
  then set_lock_sets (shared_lock_set_ c1 ∖ {[rid]})
                     (exclusive_lock_set_ c1 ∖ {[rid]}) c1
  else c1.

(** The calls [Read] makes, in order. *)
Definition Read_events (c : TwoPLContext) (rid : RID) (ti : TableInfo)
  : list Event :=
  (if Read_requests_lock c rid then [EvLockShared (txn_id_ c) rid] else [])
  ++ [EvGetTuple ti rid]
  ++ (if Read_releases_lock (Read_after_acquire c rid) rid
      then [EvUnlock (txn_id_ c) rid] else []).

(** What [Commit] and [Abort] leave behind, given the state-setting event
    and the queue that was run. *)
Definition finalized (w : World) (p : Ptr) (c : TwoPLContext)
    (ev : Event) (queue : list Action) : World :=
  mkWorld (delete p (heap w)) (delete (txn_id_ c) (txn_map_ w))
          (next_txn_id_ w)
          (foldl (λ s a, run_action a s) (storage w) queue)
          (trace w ++ [ev] ++ map EvAction queue
             ++ map (EvUnlock (txn_id_ c))
                    (elements (exclusive_lock_set_ c ∪ shared_lock_set_ c))
             ++ [EvRemoveTransactionContext (txn_id_ c); EvDelete p]).

(** The lock sets have been drained between [w] and [w']: every RID of
    the two lock sets of [c] was unlocked exactly once, nothing else was
    unlocked, and the context pointer holds no lock any more. *)
Definition drained (w : World) (p : Ptr) (c : TwoPLContext) (w' : World)
  : Prop :=
  ∃ evs, trace w' = trace w ++ evs
    ∧ NoDup (unlock_calls evs)
    ∧ (∀ t rid, (t, rid) ∈ unlock_calls evs ↔
         t = txn_id_ c
         ∧ (rid ∈ shared_lock_set_ c ∨ rid ∈ exclusive_lock_set_ c))
    ∧ held_locks w' p = ∅.

End Model.

(** ** A concrete table heap, for running the manager *)

Module Demo.

(** Modelled from the spec: the undo and redo calls of the table accessor
    that a registered thunk makes. *)
Inductive TableCall :=
| MarkDelete (rid : RID)
| RollbackDelete (rid : RID)
| ApplyDelete (rid : RID)
| UpdateTuple (rid : RID) (image : nat).

(** A row is its value and its tombstone. *)
Definition Rows : Type := gmap N (nat * bool).

Definition get_tuple (rows : Rows) (_ : unit) (rid : RID) : option nat :=
  match rows !! rid with
  | Some (v, false) => Some v
  | _ => None
  end.

Definition run_call (a : TableCall) (rows : Rows) : Rows :=
  match a with
  | MarkDelete rid => alter (λ r, (r.1, true)) rid rows
  | RollbackDelete rid => alter (λ r, (r.1, false)) rid rows
  | ApplyDelete rid => delete rid rows
  | UpdateTuple rid v => alter (λ r, (v, r.2)) rid rows
  end.

(** A lock manager that grants every request. *)
Definition granting : Collaborators :=
  Build_Collaborators nat unit Rows get_tuple TableCall run_call (λ _ _, true).

(** The address of the one context, the one table and a tuple to insert. *)
Definition txn : Ptr := 1%positive.
Definition table : @TableInfo granting := tt.
Definition tuple5 : @Tuple granting := 5.

(** Rows 7 (value 70) and 9 (value 90, tombstoned). *)
Definition rows0 : Rows := {[ 7%N := (70, false); 9%N := (90, true) ]}.

(** Rows 7 (value 72 after two updates, 70 then 71 before them) and 9
    (value 90, tombstoned). *)
Definition rows1 : Rows := {[ 7%N := (72, false); 9%N := (90, true) ]}.

(** A context of transaction 1. *)
Definition ctx (lvl : IsolationLevel.t) (st : TransactionState.t)
    (sh ex : gset RID) (commits aborts : list TableCall)
  : @TwoPLContext granting :=
  @mkContext granting 1%N lvl st sh ex commits aborts.

(** A world with one registered transaction, id 1, at address 1. *)
Definition world_of (rows : Rows) (c : @TwoPLContext granting)
  : @World granting :=
  @mkWorld granting {[ txn := c ]} {[ 1%N := txn ]} 2%N rows [].

(** A live REPEATABLE_READ transaction that holds no lock. *)
Definition fresh_rr : @TwoPLContext granting :=
  ctx IsolationLevel.REPEATABLE_READ TransactionState.GROWING ∅ ∅ [] [].

(** A live READ_COMMITTED transaction that holds no lock. *)
Definition fresh_rc : @TwoPLContext granting :=
  ctx IsolationLevel.READ_COMMITTED TransactionState.GROWING ∅ ∅ [] [].

(** A live READ_COMMITTED transaction that has written row 7. *)
Definition writer_rc : @TwoPLContext granting :=
  ctx IsolationLevel.READ_COMMITTED TransactionState.GROWING ∅ {[ 7%N ]}
      [] [UpdateTuple 7 70].

(** A transaction that updated row 7 twice, from 70 to 71 and then to 72,
    registering the restoring call after each update. *)
Definition twice_updated : @TwoPLContext granting :=
  ctx IsolationLevel.REPEATABLE_READ TransactionState.GROWING ∅ {[ 7%N ]}
      [] [UpdateTuple 7 70; UpdateTuple 7 71].

(** A transaction with RID 8 in both lock sets, and a delete of row 9 to
    apply at commit or to roll back at abort. *)
Definition overlapping : @TwoPLContext granting :=
  ctx IsolationLevel.REPEATABLE_READ TransactionState.GROWING
      {[ 7%N; 8%N ]} {[ 8%N; 9%N ]} [ApplyDelete 9] [RollbackDelete 9].

(** Contexts in a terminal state. *)
Definition committed_rr : @TwoPLContext granting :=
  ctx IsolationLevel.REPEATABLE_READ TransactionState.COMMITTED ∅ ∅ [] [].

Definition aborted_rr : @TwoPLContext granting :=
  ctx IsolationLevel.REPEATABLE_READ TransactionState.ABORTED ∅ ∅ [] [].

End Demo.

(** ** Further scenarios *)

Module Scenario.

(** A lock manager that makes every requester the deadlock victim, over
    the same table heap. *)
Definition refusing : Collaborators :=
  Build_Collaborators nat unit Demo.Rows Demo.get_tuple Demo.TableCall
                      Demo.run_call (λ _ _, false).

Definition victim_table : @TableInfo refusing := tt.

(** A live REPEATABLE_READ transaction, holding no lock, whose lock
    requests will be refused. *)
Definition victim_rr : @TwoPLContext refusing :=
  @mkContext refusing 1%N IsolationLevel.REPEATABLE_READ
             TransactionState.GROWING ∅ ∅ [] [].

Definition victim_world : @World refusing :=
  @mkWorld refusing {[ Demo.txn := victim_rr ]} {[ 1%N := Demo.txn ]} 2%N
           Demo.rows0 [].

(** A live READ_UNCOMMITTED transaction that holds RID 7 in exclusive
    mode. *)
Definition writer_ru : @TwoPLContext Demo.granting :=
  Demo.ctx IsolationLevel.READ_UNCOMMITTED TransactionState.GROWING
           ∅ {[ 7%N ]} [] [Demo.UpdateTuple 7 70].

(** A live READ_COMMITTED transaction that holds RID 9 in exclusive mode
    and no shared lock. *)
Definition deleter_rc : @TwoPLContext Demo.granting :=
  Demo.ctx IsolationLevel.READ_COMMITTED TransactionState.GROWING
           ∅ {[ 9%N ]} [Demo.ApplyDelete 9] [Demo.RollbackDelete 9].

(** The RIDs of a scan that comes back to its first row. *)
Definition scan : list RID := [7%N; 9%N; 7%N].

(** The worlds of the runs: one registered transaction each. *)
Definition w_overlapping : @World Demo.granting :=
  Demo.world_of Demo.rows1 Demo.overlapping.
Definition w_fresh_rr : @World Demo.granting :=
  Demo.world_of Demo.rows0 Demo.fresh_rr.
Definition w_fresh_rc : @World Demo.granting :=
  Demo.world_of Demo.rows0 Demo.fresh_rc.
Definition w_writer_ru : @World Demo.granting :=
  Demo.world_of Demo.rows1 writer_ru.
Definition w_deleter_rc : @World Demo.granting :=
  Demo.world_of Demo.rows0 deleter_rc.

End Scenario.


#[local] Set Warnings "-clear-no-such-hyp".

Section Properties.
Context {collab : Collaborators}.

Implicit Types (w : World) (c : TwoPLContext) (p : Ptr) (rid : RID)
  (t : txn_id_t).

(** ** Running the primitives *)

Lemma run_bind {A B} (m : M A) (k : A → M B) w a w1 :
  m w = Returned a w1 → (m ≫= k) w = k a w1.
Proof. intros Hm. unfold mbind, M_bind. by rewrite Hm. Qed.

Lemma run_bind_crash {A B} (m : M A) (k : A → M B) w f w1 :
  m w = Crashed f w1 → (m ≫= k) w = Crashed f w1.
Proof. intros Hm. unfold mbind, M_bind. by rewrite Hm. Qed.

(** Solves the side condition of a [_run] lemma: the context at [p]. *)
Ltac ctx_at := simpl; first [eassumption | apply lookup_insert_eq].

(** Normalises the projections of an explicit world. *)
Ltac wsimpl := cbn [heap txn_map_ next_txn_id_ storage trace].

(** Runs the first call of a sequence with the matching [_run] lemma. *)
Ltac run_with lem := erewrite run_bind by (apply lem; ctx_at); wsimpl.

(** Runs a first call that computes by unfolding. *)
Ltac run_refl := erewrite run_bind by reflexivity; wsimpl.

Lemma deref_run w p c : heap w !! p = Some c → deref p w = Returned c w.
Proof. intros Hp. unfold deref. by rewrite Hp. Qed.

Lemma deref_dangling w p :
  heap w !! p = None → deref p w = Crashed (UseAfterFree p) w.
Proof. intros Hp. unfold deref. by rewrite Hp. Qed.

Lemma IsAborted_run w p c :
  heap w !! p = Some c →
  IsAborted p w
  = Returned (bool_decide (state_ c = TransactionState.ABORTED)) w.
Proof. intros Hp. unfold IsAborted. by run_with deref_run. Qed.

Lemma IsSharedLocked_run w p c rid :
  heap w !! p = Some c →
  IsSharedLocked p rid w
  = Returned (bool_decide (rid ∈ shared_lock_set_ c)) w.
Proof. intros Hp. unfold IsSharedLocked. by run_with deref_run. Qed.

Lemma IsExclusiveLocked_run w p c rid :
  heap w !! p = Some c →
  IsExclusiveLocked p rid w
  = Returned (bool_decide (rid ∈ exclusive_lock_set_ c)) w.
Proof. intros Hp. unfold IsExclusiveLocked. by run_with deref_run. Qed.

Lemma GetTxnId_run w p c :
  heap w !! p = Some c → GetTxnId p w = Returned (txn_id_ c) w.
Proof. intros Hp. unfold GetTxnId. by run_with deref_run. Qed.

Lemma LockShared_run w p c rid :
  heap w !! p = Some c →
  LockShared p rid w =
  Returned (lm_grants (txn_id_ c) rid)
    (mkWorld (<[p := if lm_grants (txn_id_ c) rid
                     then set_lock_sets ({[rid]} ∪ shared_lock_set_ c)
                                        (exclusive_lock_set_ c) c
                     else set_state TransactionState.ABORTED c]> (heap w))
             (txn_map_ w) (next_txn_id_ w) (storage w)
             (trace w ++ [EvLockShared (txn_id_ c) rid])).
Proof.
  intros Hp. unfold LockShared.
  rewrite (run_bind _ _ _ _ _ (deref_run _ _ _ Hp)).
  by destruct (lm_grants (txn_id_ c) rid).
Qed.

Lemma Unlock_run w p c rid :
  heap w !! p = Some c →
  Unlock p rid w =
  Returned true
    (mkWorld (<[p := set_lock_sets (shared_lock_set_ c ∖ {[rid]})
                                   (exclusive_lock_set_ c ∖ {[rid]}) c]>
                (heap w))
             (txn_map_ w) (next_txn_id_ w) (storage w)
             (trace w ++ [EvUnlock (txn_id_ c) rid])).
Proof.
  intros Hp. unfold Unlock.
  by rewrite (run_bind _ _ _ _ _ (deref_run _ _ _ Hp)).
Qed.

Lemma Read_returns w p c rid ti :
  heap w !! p = Some c →
  state_ c ≠ TransactionState.ABORTED →
  Read p rid ti w =
  Returned (if GetTuple (storage w) ti rid is Some _
            then ErrorCode.OK else ErrorCode.SKIP,
            GetTuple (storage w) ti rid)
           (mkWorld (<[p := Read_after_release (Read_after_acquire c rid) rid]>
                       (heap w))
                    (txn_map_ w) (next_txn_id_ w) (storage w)
                    (trace w ++ Read_events c rid ti)).
Proof.
  intros Hp Hlive. unfold Read.
  run_with IsAborted_run.
  rewrite bool_decide_false by done. simpl TINYDB_ASSERT.
  run_refl. run_with deref_run. run_with IsSharedLocked_run.
  run_with IsExclusiveLocked_run.
  unfold Read_events, Read_after_acquire. fold (Read_requests_lock c rid).
  destruct (Read_requests_lock c rid) eqn:Hreq.
  - erewrite run_bind; last first.
    { erewrite run_bind by (apply LockShared_run; ctx_at). reflexivity. }
    run_refl. run_with deref_run. run_with IsSharedLocked_run.
    set (c1 := if lm_grants (txn_id_ c) rid then _ else _).
    assert (Htid : txn_id_ c1 = txn_id_ c)
      by (subst c1; by destruct (lm_grants _ _)).
    unfold Read_after_release. fold (Read_releases_lock c1 rid).
    destruct (Read_releases_lock c1 rid).
    + erewrite run_bind; last first.
      { erewrite run_bind by (apply Unlock_run; ctx_at). reflexivity. }
      wsimpl. unfold mret, M_ret.
      rewrite insert_insert_eq, Htid, <- !app_assoc. reflexivity.
    + run_refl. unfold mret, M_ret. rewrite app_nil_r, <- app_assoc.
      reflexivity.
  - run_refl. run_refl. run_with deref_run. run_with IsSharedLocked_run.
    unfold Read_after_release. fold (Read_releases_lock c rid).
    destruct (Read_releases_lock c rid).
    + erewrite run_bind; last first.
      { erewrite run_bind by (apply Unlock_run; ctx_at). reflexivity. }
      wsimpl. unfold mret, M_ret. rewrite <- ?app_assoc. reflexivity.
    + run_refl. unfold mret, M_ret. rewrite app_nil_r, insert_id by done.
      reflexivity.
Qed.

(** ** Running the finalisation steps *)

Lemma set_lock_sets_id c :
  set_lock_sets (shared_lock_set_ c) (exclusive_lock_set_ c) c = c.
Proof. by destruct c. Qed.

Lemma for_each_call_run (l : list Action) w :
  for_each l call w =
  Returned tt (mkWorld (heap w) (txn_map_ w) (next_txn_id_ w)
                       (foldl (λ s a, run_action a s) (storage w) l)
                       (trace w ++ map EvAction l)).
Proof.
  revert w. induction l as [|a l IH]; intros w; simpl.
  - unfold mret, M_ret. rewrite app_nil_r. by destruct w.
  - run_refl. rewrite IH. wsimpl. by rewrite <- app_assoc.
Qed.

Lemma for_each_Unlock_run (l : list RID) w p c :
  heap w !! p = Some c →
  for_each l (λ rid, _ ← Unlock p rid; mret tt) w =
  Returned tt
    (mkWorld (<[p := set_lock_sets (shared_lock_set_ c ∖ list_to_set l)
                                   (exclusive_lock_set_ c ∖ list_to_set l) c]>
                (heap w))
             (txn_map_ w) (next_txn_id_ w) (storage w)
             (trace w ++ map (EvUnlock (txn_id_ c)) l)).
Proof.
  revert w c. induction l as [|r l IH]; intros w c Hp; simpl.
  - unfold mret, M_ret.
    rewrite !difference_empty_L, set_lock_sets_id, insert_id, app_nil_r by done.
    by destruct w.
  - erewrite run_bind; last first.
    { erewrite run_bind by (apply Unlock_run; ctx_at). reflexivity. }
    erewrite IH by ctx_at. wsimpl.
    rewrite insert_insert_eq, <- app_assoc. unfold set_lock_sets at 1; simpl.
    by rewrite !difference_difference_l_L.
Qed.

Lemma ReleaseAllLocks_run w p c :
  heap w !! p = Some c →
  ReleaseAllLocks p w =
  Returned tt
    (mkWorld (<[p := set_lock_sets ∅ ∅ c]> (heap w))
             (txn_map_ w) (next_txn_id_ w) (storage w)
             (trace w ++ map (EvUnlock (txn_id_ c))
                             (elements (exclusive_lock_set_ c
                                        ∪ shared_lock_set_ c)))).
Proof.
  intros Hp. unfold ReleaseAllLocks. run_with deref_run.
  rewrite (left_id_L ∅ (∪)).
  erewrite for_each_Unlock_run by done.
  rewrite list_to_set_elements_L.
  do 3 f_equal. f_equal; set_unfold; tauto.
Qed.

Lemma Commit_run w p c :
  heap w !! p = Some c →
  Commit p w =
  Returned tt (finalized w p c (EvSetCommitted (txn_id_ c)) (commit_action_ c)).
Proof.
  intros Hp. unfold Commit.
  erewrite run_bind; last first.
  { unfold SetCommitted. run_with deref_run. run_refl. reflexivity. }
  wsimpl. run_with deref_run. cbn [commit_action_ set_state].
  erewrite run_bind by apply for_each_call_run. wsimpl.
  erewrite run_bind by (apply ReleaseAllLocks_run; ctx_at). wsimpl.
  run_with GetTxnId_run. run_refl.
  unfold delete_context. wsimpl. rewrite lookup_insert_eq.
  unfold finalized. rewrite !insert_insert_eq, delete_insert_eq.
  cbn [txn_id_ set_lock_sets set_state exclusive_lock_set_ shared_lock_set_].
  by rewrite <- !app_assoc.
Qed.

Lemma Abort_run w p c :
  heap w !! p = Some c →
  Abort p w =
  Returned tt (finalized w p c (EvSetAborted (txn_id_ c)) (abort_action_ c)).
Proof.
  intros Hp. unfold Abort.
  erewrite run_bind; last first.
  { unfold SetAborted. run_with deref_run. run_refl. reflexivity. }
  wsimpl. run_with deref_run. cbn [abort_action_ set_state].
  erewrite run_bind by apply for_each_call_run. wsimpl.
  erewrite run_bind by (apply ReleaseAllLocks_run; ctx_at). wsimpl.
  run_with GetTxnId_run. run_refl.
  unfold delete_context. wsimpl. rewrite lookup_insert_eq.
  unfold finalized. rewrite !insert_insert_eq, delete_insert_eq.
  cbn [txn_id_ set_lock_sets set_state exclusive_lock_set_ shared_lock_set_].
  by rewrite <- !app_assoc.
Qed.

Lemma Abort_dangling w p :
  heap w !! p = None → Abort p w = Crashed (UseAfterFree p) w.
Proof.
  intros Hp. unfold Abort, SetAborted.
  erewrite run_bind_crash; [done|].
  erewrite run_bind_crash; [done|]. by apply deref_dangling.
Qed.

(** ** Projections of a trace *)

Lemma unlock_calls_app (evs1 evs2 : list Event) :
  unlock_calls (evs1 ++ evs2) = unlock_calls evs1 ++ unlock_calls evs2.
Proof. apply omap_app. Qed.

Lemma unlock_calls_Unlock t (l : list RID) :
  unlock_calls (map (EvUnlock t) l) = map (pair t) l.
Proof. induction l as [|r l IH]; simpl; [done | by rewrite <- IH]. Qed.

Lemma unlock_calls_Action (l : list Action) :
  unlock_calls (map EvAction l) = [].
Proof. induction l as [|a l IH]; simpl; done. Qed.

Lemma actions_called_app (evs1 evs2 : list Event) :
  actions_called (evs1 ++ evs2) = actions_called evs1 ++ actions_called evs2.
Proof. apply omap_app. Qed.

Lemma actions_called_Action (l : list Action) :
  actions_called (map EvAction l) = l.
Proof. induction l as [|a l IH]; simpl; [done | by rewrite IH]. Qed.

Lemma actions_called_Unlock t (l : list RID) :
  actions_called (map (EvUnlock t) l) = [].
Proof. induction l as [|r l IH]; simpl; done. Qed.

Lemma unlock_calls_finalized t (q : list Action) (l : list RID) ev p :
  (if ev is EvUnlock _ _ then False else True) →
  unlock_calls ([ev] ++ map EvAction q ++ map (EvUnlock t) l
                ++ [EvRemoveTransactionContext t; EvDelete p])
  = map (pair t) l.
Proof.
  intros Hev.
  rewrite !unlock_calls_app, unlock_calls_Action, unlock_calls_Unlock.
  destruct ev; try done; simpl; by rewrite app_nil_r.
Qed.

Lemma drained_pairs t (X : gset RID) :
  NoDup (map (pair t) (elements X))
  ∧ ∀ t' rid,
      (t', rid) ∈ map (pair t) (elements X) ↔ t' = t ∧ rid ∈ X.
Proof.
  split.
  - apply (NoDup_fmap_2 (pair t)), NoDup_elements.
  - intros t' rid. rewrite list_elem_of_fmap. split.
    + intros (r & [= -> ->] & Hr). by rewrite elem_of_elements in Hr.
    + intros [-> Hr]. exists rid. by rewrite elem_of_elements.
Qed.

(** ** Commit and Abort *)

(** The thunks [Abort] calls are the abort queue, front to back. *)
Lemma Abort_calls_queue_front_to_back w p c :
  heap w !! p = Some c →
  ∃ w' evs, Abort p w = Returned tt w'
    ∧ trace w' = trace w ++ evs
    ∧ actions_called evs = abort_action_ c
    ∧ storage w'
      = foldl (λ s a, run_action a s) (storage w) (abort_action_ c).
Proof.
  intros Hp. eexists _, _. split; [by apply Abort_run|].
  split; [done|]. split; [|done].
  rewrite !actions_called_app, actions_called_Action, actions_called_Unlock.
  simpl. by rewrite app_nil_r.
Qed.

(** C7. Both [Commit] and [Abort] first make the state transition, then
    call the registered actions, then release the locks, and only then
    remove the context from the transaction map and destroy it.  [Commit]
    calls its commit actions in insertion order; for [Abort] the theorem
    says that the actions called are the registered abort actions, all
    between the transition and the first unlock. *)
Theorem finalization_order w p c :
  heap w !! p = Some c →
  (∃ w', Commit p w = Returned tt w'
     ∧ trace w' = trace w
         ++ [EvSetCommitted (txn_id_ c)]
         ++ map EvAction (commit_action_ c)
         ++ map (EvUnlock (txn_id_ c))
                (elements (exclusive_lock_set_ c ∪ shared_lock_set_ c))
         ++ [EvRemoveTransactionContext (txn_id_ c); EvDelete p])
  ∧ (∃ w' acts, Abort p w = Returned tt w'
     ∧ acts ≡ₚ abort_action_ c
     ∧ trace w' = trace w
         ++ [EvSetAborted (txn_id_ c)]
         ++ map EvAction acts
         ++ map (EvUnlock (txn_id_ c))
                (elements (exclusive_lock_set_ c ∪ shared_lock_set_ c))
         ++ [EvRemoveTransactionContext (txn_id_ c); EvDelete p]).
Proof.
  intros Hp. split.
  - eexists. split; [by apply Commit_run | done].
  - eexists _, _. split; [by apply Abort_run | done].
Qed.

(** C8. [ReleaseAllLocks], and with it [Commit] and [Abort], unlocks every
    RID of the union of the two lock sets exactly once, a RID in both sets
    included, and unlocks nothing else; afterwards the context pointer
    holds no lock (after [ReleaseAllLocks] both lock sets of the context
    are empty; after [Commit] and [Abort] the context is gone). *)
Theorem locks_drained_at_finalization w p c :
  heap w !! p = Some c →
  (∃ w' c', ReleaseAllLocks p w = Returned tt w'
     ∧ drained w p c w'
     ∧ heap w' !! p = Some c'
     ∧ shared_lock_set_ c' = ∅ ∧ exclusive_lock_set_ c' = ∅)
  ∧ (∃ w', Commit p w = Returned tt w' ∧ drained w p c w')
  ∧ (∃ w', Abort p w = Returned tt w' ∧ drained w p c w').
Proof.
  intros Hp.
  destruct (drained_pairs (txn_id_ c)
              (exclusive_lock_set_ c ∪ shared_lock_set_ c)) as [Hnd Hin].
  assert (Hin' : ∀ t rid,
    (t, rid) ∈ map (pair (txn_id_ c))
                   (elements (exclusive_lock_set_ c ∪ shared_lock_set_ c)) ↔
    t = txn_id_ c
    ∧ (rid ∈ shared_lock_set_ c ∨ rid ∈ exclusive_lock_set_ c)).
  { intros t rid. rewrite Hin, elem_of_union. tauto. }
  split; [|split].
  - eexists _, _. split; [by apply ReleaseAllLocks_run|].
    split; [|wsimpl; rewrite lookup_insert_eq; done].
    eexists. split; [done|]. rewrite unlock_calls_Unlock.
    split; [done|]. split; [done|].
    unfold held_locks. wsimpl. rewrite lookup_insert_eq. simpl.
    by rewrite (left_id_L ∅ (∪)).
  - eexists. split; [by apply Commit_run|].
    eexists. split; [done|]. rewrite unlock_calls_finalized by done.
    split; [done|]. split; [done|].
    unfold held_locks, finalized. wsimpl. by rewrite lookup_delete_eq.
  - eexists. split; [by apply Abort_run|].
    eexists. split; [done|]. rewrite unlock_calls_finalized by done.
    split; [done|]. split; [done|].
    unfold held_locks, finalized. wsimpl. by rewrite lookup_delete_eq.
Qed.

(** ** Read *)

(** Opens [Read] on a live context and splits on every test it makes. *)
Ltac read_cases c rid :=
  unfold Read_events, Read_after_release, Read_releases_lock,
    Read_after_acquire, Read_requests_lock;
  destruct (lm_grants (txn_id_ c) rid) eqn:?;
  repeat first [ case_bool_decide | progress simpl in * ].

(** Closes the cases left by [read_cases]. *)
Ltac read_done :=
  repeat split; intros; destruct_or?; destruct_and?;
  try done; try congruence; try solve [set_unfold; naive_solver].

(** C6. Under READ_UNCOMMITTED [Read] makes no [LockShared] request.
    Under any other isolation level it makes exactly one, on the RID that
    is read, when the context holds that RID in neither lock set, and none
    when the context holds it in one of them. *)
Theorem Read_shared_lock_acquisition_policy w p c rid ti :
  heap w !! p = Some c →
  state_ c ≠ TransactionState.ABORTED →
  ∃ r w' evs, Read p rid ti w = Returned r w'
    ∧ trace w' = trace w ++ evs
    ∧ (isolation_level_ c = IsolationLevel.READ_UNCOMMITTED →
         lock_shared_calls evs = [])
    ∧ (isolation_level_ c ≠ IsolationLevel.READ_UNCOMMITTED →
         ((rid ∉ shared_lock_set_ c) ∧ (rid ∉ exclusive_lock_set_ c) →
            lock_shared_calls evs = [(txn_id_ c, rid)])
         ∧ (rid ∈ shared_lock_set_ c ∨ rid ∈ exclusive_lock_set_ c →
            lock_shared_calls evs = [])).
Proof.
  intros Hp Hlive. eexists _, _, _.
  split; [by apply Read_returns|]. split; [done|].
  read_cases c rid; read_done.
Qed.

(** C5. Under READ_COMMITTED, when the context holds the RID in shared
    mode after the fetch (it held it at entry, or it requested it and the
    request was granted), [Read] unlocks it as its last call, and no S lock
    on the RID is held when [Read] returns.  Under REPEATABLE_READ and
    SERIALIZABLE [Read] makes no [Unlock] call: no lock of the context is
    given up. *)
Theorem Read_shared_lock_release_policy w p c rid ti :
  heap w !! p = Some c →
  state_ c ≠ TransactionState.ABORTED →
  ∃ r w' c' evs, Read p rid ti w = Returned r w'
    ∧ heap w' !! p = Some c'
    ∧ trace w' = trace w ++ evs
    ∧ (isolation_level_ c = IsolationLevel.READ_COMMITTED →
         (rid ∈ shared_lock_set_ c
          ∨ ((rid ∉ exclusive_lock_set_ c)
             ∧ lm_grants (txn_id_ c) rid = true) →
            unlock_calls evs = [(txn_id_ c, rid)]
            ∧ last evs = Some (EvUnlock (txn_id_ c) rid))
         ∧ (rid ∉ shared_lock_set_ c'))
    ∧ (isolation_level_ c = IsolationLevel.REPEATABLE_READ
       ∨ isolation_level_ c = IsolationLevel.SERIALIZABLE →
         unlock_calls evs = []
         ∧ shared_lock_set_ c ⊆ shared_lock_set_ c'
         ∧ exclusive_lock_set_ c' = exclusive_lock_set_ c).
Proof.
  intros Hp Hlive. eexists _, _, _, _.
  split; [by apply Read_returns|].
  split; [wsimpl; apply lookup_insert_eq|]. split; [done|].
  read_cases c rid; read_done.
Qed.

(** C10. [Read] calls [Unlock] only under READ_COMMITTED, only on the RID
    it reads and only when the context holds that RID in shared mode after
    the fetch (it held it at entry, or requested it and was granted it).
    So on a context that keeps its two lock sets apart (invariant 1 of the
    data model), [Read] leaves the exclusive lock set as it was, and
    reading a RID that is held in exclusive mode makes no [Unlock] call at
    all, whatever the isolation level. *)
Theorem Read_keeps_exclusive_locks w p c rid ti :
  heap w !! p = Some c →
  state_ c ≠ TransactionState.ABORTED →
  lock_sets_disjoint c →
  ∃ r w' c' evs, Read p rid ti w = Returned r w'
    ∧ heap w' !! p = Some c'
    ∧ trace w' = trace w ++ evs
    ∧ (unlock_calls evs ≠ [] →
         isolation_level_ c = IsolationLevel.READ_COMMITTED
         ∧ unlock_calls evs = [(txn_id_ c, rid)]
         ∧ (rid ∈ shared_lock_set_ c
            ∨ ((rid ∉ exclusive_lock_set_ c)
               ∧ lm_grants (txn_id_ c) rid = true)))
    ∧ exclusive_lock_set_ c' = exclusive_lock_set_ c
    ∧ lock_sets_disjoint c'
    ∧ (rid ∈ exclusive_lock_set_ c →
         unlock_calls evs = [] ∧ rid ∈ exclusive_lock_set_ c').
Proof.
  intros Hp Hlive Hdisj. eexists _, _, _, _.
  split; [by apply Read_returns|].
  split; [wsimpl; apply lookup_insert_eq|]. split; [done|].
  unfold lock_sets_disjoint in *.
  read_cases c rid; read_done.
Qed.

(** C9. When [GetTuple] fails on a live context, [Read] returns SKIP.  It
    makes no call other than the lock request, the fetch and the unlock:
    it neither aborts nor destroys the context, which stays allocated and
    registered with its action queues.  The failed fetch does not touch
    the state of the context (only the lock manager, refusing the lock
    request, changes it), and with the state unchanged any further [Read]
    on the context returns. *)
Theorem Read_GetTuple_failure_returns_SKIP w p c rid ti :
  heap w !! p = Some c →
  state_ c ≠ TransactionState.ABORTED →
  GetTuple (storage w) ti rid = None →
  ∃ w' c' evs, Read p rid ti w = Returned (ErrorCode.SKIP, None) w'
    ∧ heap w' !! p = Some c'
    ∧ trace w' = trace w ++ evs
    ∧ (∀ e, e ∈ evs →
         e = EvLockShared (txn_id_ c) rid ∨ e = EvGetTuple ti rid
         ∨ e = EvUnlock (txn_id_ c) rid)
    ∧ txn_map_ w' = txn_map_ w ∧ storage w' = storage w
    ∧ commit_action_ c' = commit_action_ c
    ∧ abort_action_ c' = abort_action_ c
    ∧ (lock_shared_calls evs = [] ∨ lm_grants (txn_id_ c) rid = true →
         state_ c' = state_ c)
    ∧ (state_ c' = state_ c →
         ∀ rid2 ti2, ∃ r w'', Read p rid2 ti2 w' = Returned r w'').
Proof.
  intros Hp Hlive Hget. eexists _, _, _.
  split; [by rewrite (Read_returns _ _ _ _ _ Hp Hlive), Hget|].
  split; [wsimpl; apply lookup_insert_eq|]. split; [done|].
  split; [|split; [done|split; [done|]]].
  { read_cases c rid; intros e He; set_unfold; naive_solver. }
  split; [|split; [|split]].
  - read_cases c rid; read_done.
  - read_cases c rid; read_done.
  - read_cases c rid; read_done.
  - intros Hst rid2 ti2. eexists _, _.
    apply Read_returns; [wsimpl; apply lookup_insert_eq | congruence].
Qed.

(** ** Liveness check of the data operations *)

(** C2, as the code has it. Each of [Read], [Insert], [Update] and
    [Delete] stops at its assertion when the context is ABORTED at entry,
    before any call on the lock manager or the table heap. *)
Theorem data_operations_refuse_aborted_context w p c rid tuple ti :
  heap w !! p = Some c →
  state_ c = TransactionState.ABORTED →
  state_violation (Read p rid ti) w
  ∧ state_violation (Insert p tuple ti) w
  ∧ state_violation (Update p tuple rid ti) w
  ∧ state_violation (Delete p rid ti) w.
Proof.
  intros Hp Hst. unfold state_violation, Read, Insert, Update, Delete.
  repeat split; run_with IsAborted_run;
    rewrite bool_decide_true by done; try done.
Qed.

(** ** Repeated Abort *)

(** C3, as the code has it. [Abort] has no check of the state at entry:
    on any allocated context it returns, leaving the context destroyed and
    removed from the transaction map.  A second [Abort] on the same
    context is therefore not a no-op: it dereferences a destroyed
    context. *)
Theorem Abort_destroys_context w p c :
  heap w !! p = Some c →
  ∃ w1, Abort p w = Returned tt w1
    ∧ heap w1 !! p = None
    ∧ txn_map_ w1 !! txn_id_ c = None
    ∧ Abort p w1 = Crashed (UseAfterFree p) w1.
Proof.
  intros Hp. eexists. split; [by apply Abort_run|].
  split; [apply lookup_delete_eq|]. split; [apply lookup_delete_eq|].
  apply Abort_dangling, lookup_delete_eq.
Qed.

(** ** Begin *)

Lemma Begin_run lvl w :
  Begin lvl w =
  Returned (fresh (dom (heap w)))
    (mkWorld (<[fresh (dom (heap w)) :=
                 mkContext (next_txn_id_ w) lvl TransactionState.GROWING
                           ∅ ∅ [] []]> (heap w))
             (<[next_txn_id_ w := fresh (dom (heap w))]> (txn_map_ w))
             ((next_txn_id_ w + 1) mod 2 ^ 64)%N
             (storage w)
             (trace w ++ [EvNew (fresh (dom (heap w)));
                          EvAddTransactionContext (next_txn_id_ w)
                                                  (fresh (dom (heap w)))])).
Proof.
  unfold Begin. run_refl. run_refl. run_refl.
  unfold mret, M_ret. by rewrite <- app_assoc.
Qed.

Lemma fresh_not_allocated w : heap w !! fresh (dom (heap w)) = None.
Proof. apply not_elem_of_dom, is_fresh. Qed.

(** [Begin] always returns.  The context it returns is at an address that
    was not allocated before, is in GROWING state at the requested
    isolation level, holds no lock and has empty action queues; it is
    registered under the transaction id taken from the counter.  No
    context that existed before is changed, and neither the lock manager
    nor the table heap is called. *)
Theorem Begin_creates_live_registered_context lvl w :
  ∃ p w', Begin lvl w = Returned p w'
    ∧ heap w !! p = None
    ∧ heap w' !! p = Some (mkContext (next_txn_id_ w) lvl
                             TransactionState.GROWING ∅ ∅ [] [])
    ∧ txn_map_ w' !! next_txn_id_ w = Some p
    ∧ (∀ q c, heap w !! q = Some c → heap w' !! q = Some c)
    ∧ storage w' = storage w
    ∧ trace w' = trace w
        ++ [EvNew p; EvAddTransactionContext (next_txn_id_ w) p].
Proof.
  eexists _, _. split; [apply Begin_run|]. wsimpl.
  split; [apply fresh_not_allocated|].
  split; [apply lookup_insert_eq|]. split; [apply lookup_insert_eq|].
  split; [|done]. intros q c Hq. rewrite lookup_insert_ne; [done|].
  intros <-. by rewrite fresh_not_allocated in Hq.
Qed.

(** Two transactions begun one after the other are at different
    addresses and have different transaction ids; after the second
    [Begin] both are allocated and both are registered. *)
Theorem Begin_twice_distinct_transactions lvl1 lvl2 w :
  ∃ p1 w1 p2 w2 c1 c2,
    Begin lvl1 w = Returned p1 w1 ∧ Begin lvl2 w1 = Returned p2 w2
    ∧ p1 ≠ p2
    ∧ heap w2 !! p1 = Some c1 ∧ heap w2 !! p2 = Some c2
    ∧ txn_id_ c1 ≠ txn_id_ c2
    ∧ isolation_level_ c1 = lvl1 ∧ isolation_level_ c2 = lvl2
    ∧ txn_map_ w2 !! txn_id_ c1 = Some p1
    ∧ txn_map_ w2 !! txn_id_ c2 = Some p2.
Proof.
  eexists _, _, _, _, _, _.
  split; [apply Begin_run|]. split; [apply Begin_run|]. wsimpl.
  set (p1 := fresh (dom (heap w))).
  set (c1 := mkContext (next_txn_id_ w) lvl1 TransactionState.GROWING ∅ ∅ [] []).
  set (p2 := fresh (dom (<[p1:=c1]> (heap w)))).
  assert (Hp : p1 ≠ p2).
  { intros Heq. pose proof (is_fresh (dom (<[p1:=c1]> (heap w)))) as Hf.
    fold p2 in Hf. rewrite <- Heq in Hf. apply Hf.
    apply elem_of_dom. rewrite lookup_insert_eq. by eexists. }
  assert (Hid : next_txn_id_ w ≠ ((next_txn_id_ w + 1) mod 2 ^ 64)%N).
  { assert (Hbig : (1 < 2 ^ 64)%N) by done.
    generalize dependent (2 ^ 64)%N. intros m Hm Heq.
    destruct (decide (next_txn_id_ w + 1 < m)%N) as [Hlt|Hge].
    - rewrite N.mod_small in Heq by done. lia.
    - assert (Hlt : ((next_txn_id_ w + 1) mod m < m)%N)
        by (apply N.mod_lt; lia).
      assert (Hfull : (next_txn_id_ w + 1 = m)%N) by lia.
      rewrite Hfull, N.Div0.mod_same in Heq. lia. }
  split; [done|].
  split; [rewrite lookup_insert_ne by done; apply lookup_insert_eq|].
  split; [apply lookup_insert_eq|]. simpl.
  split; [done|]. split; [done|]. split; [done|].
  split; [rewrite lookup_insert_ne by done; apply lookup_insert_eq|].
  apply lookup_insert_eq.
Qed.

(** A transaction that is begun and finalised at once, by [Commit] or by
    [Abort], leaves the heap of contexts and the table heaps as they were
    and makes no call on the lock manager; its id is no longer in the
    transaction map, so the map is as before when that id was not
    registered. *)
Theorem Begin_then_finalize_round_trip lvl w :
  ∃ wc wa,
    (p ← Begin lvl; Commit p) w = Returned tt wc
    ∧ (p ← Begin lvl; Abort p) w = Returned tt wa
    ∧ heap wc = heap w ∧ heap wa = heap w
    ∧ storage wc = storage w ∧ storage wa = storage w
    ∧ txn_map_ wc = delete (next_txn_id_ w) (txn_map_ w)
    ∧ txn_map_ wa = delete (next_txn_id_ w) (txn_map_ w)
    ∧ (txn_map_ w !! next_txn_id_ w = None →
         txn_map_ wc = txn_map_ w ∧ txn_map_ wa = txn_map_ w)
    ∧ (∃ evs, trace wc = trace w ++ evs
         ∧ lock_shared_calls evs = [] ∧ unlock_calls evs = [])
    ∧ (∃ evs, trace wa = trace w ++ evs
         ∧ lock_shared_calls evs = [] ∧ unlock_calls evs = []).
Proof.
  eexists _, _.
  split.
  { erewrite run_bind by apply Begin_run.
    apply Commit_run. wsimpl. apply lookup_insert_eq. }
  split.
  { erewrite run_bind by apply Begin_run.
    apply Abort_run. wsimpl. apply lookup_insert_eq. }
  unfold finalized. wsimpl. simpl.
  rewrite !delete_insert_id by apply fresh_not_allocated.
  rewrite !delete_insert_eq.
  rewrite (left_id_L ∅ (∪)), elements_empty. simpl.
  repeat split; try done.
  - by apply delete_id.
  - by apply delete_id.
  - eexists. split; [by rewrite <- app_assoc|done].
  - eexists. split; [by rewrite <- app_assoc|done].
Qed.

(** ** Commit and Abort, further *)

(** [Commit] and [Abort] never look at the state of the context: with
    the state at entry replaced by any other, the outcome is the same.  In
    particular [Commit] on an ABORTED context runs the commit actions, and
    [Abort] on a COMMITTED one runs the abort actions. *)
Theorem finalization_ignores_state_at_entry w p c s :
  heap w !! p = Some c →
  Commit p (mkWorld (<[p := set_state s c]> (heap w)) (txn_map_ w)
                    (next_txn_id_ w) (storage w) (trace w))
  = Commit p w
  ∧ Abort p (mkWorld (<[p := set_state s c]> (heap w)) (txn_map_ w)
                     (next_txn_id_ w) (storage w) (trace w))
    = Abort p w.
Proof.
  intros Hp. split.
  - erewrite (Commit_run w) by done.
    erewrite Commit_run by (wsimpl; apply lookup_insert_eq).
    unfold finalized. wsimpl. simpl. by rewrite delete_insert_eq.
  - erewrite (Abort_run w) by done.
    erewrite Abort_run by (wsimpl; apply lookup_insert_eq).
    unfold finalized. wsimpl. simpl. by rewrite delete_insert_eq.
Qed.

(** [Commit] calls the commit actions, front to back, and no abort
    action: the table heaps end as the commit queue leaves them, and with
    an empty commit queue they are not touched. *)
Theorem Commit_applies_commit_queue w p c :
  heap w !! p = Some c →
  ∃ w' evs, Commit p w = Returned tt w'
    ∧ trace w' = trace w ++ evs
    ∧ actions_called evs = commit_action_ c
    ∧ storage w'
      = foldl (λ s a, run_action a s) (storage w) (commit_action_ c)
    ∧ (commit_action_ c = [] → storage w' = storage w).
Proof.
  intros Hp. eexists _, _. split; [by apply Commit_run|].
  split; [done|]. split; [|split; [done|]].
  - rewrite !actions_called_app, actions_called_Action, actions_called_Unlock.
    simpl. by rewrite app_nil_r.
  - unfold finalized. wsimpl. by intros ->.
Qed.

(** [Commit] and [Abort] remove exactly the finalised context: its
    address from the heap and its id from the transaction map.  Every
    other context stays allocated, unchanged, and every other id stays
    registered. *)
Theorem finalization_leaves_other_transactions w p c :
  heap w !! p = Some c →
  ∃ wc wa, Commit p w = Returned tt wc ∧ Abort p w = Returned tt wa
    ∧ heap wc = delete p (heap w) ∧ heap wa = delete p (heap w)
    ∧ txn_map_ wc = delete (txn_id_ c) (txn_map_ w)
    ∧ txn_map_ wa = delete (txn_id_ c) (txn_map_ w)
    ∧ (∀ q, q ≠ p →
         heap wc !! q = heap w !! q ∧ heap wa !! q = heap w !! q)
    ∧ (∀ t, t ≠ txn_id_ c →
         txn_map_ wc !! t = txn_map_ w !! t
         ∧ txn_map_ wa !! t = txn_map_ w !! t).
Proof.
  intros Hp. eexists _, _.
  split; [by apply Commit_run|]. split; [by apply Abort_run|].
  unfold finalized. wsimpl. repeat split; try done.
  - by apply lookup_delete_ne.
  - by apply lookup_delete_ne.
  - by apply lookup_delete_ne.
  - by apply lookup_delete_ne.
Qed.

(** ** ReleaseAllLocks, further *)

(** [ReleaseAllLocks] changes nothing but the two lock sets of its
    context, which it empties.  Called again it makes no [Unlock] call and
    changes nothing, and on a context that holds no lock the first call
    already changes nothing. *)
Theorem ReleaseAllLocks_idempotent w p c :
  heap w !! p = Some c →
  ∃ w1, ReleaseAllLocks p w = Returned tt w1
    ∧ heap w1 = <[p := set_lock_sets ∅ ∅ c]> (heap w)
    ∧ txn_map_ w1 = txn_map_ w ∧ storage w1 = storage w
    ∧ ReleaseAllLocks p w1 = Returned tt w1
    ∧ (shared_lock_set_ c = ∅ → exclusive_lock_set_ c = ∅ → w1 = w).
Proof.
  intros Hp. eexists. split; [by apply ReleaseAllLocks_run|]. wsimpl.
  split; [done|]. split; [done|]. split; [done|]. split.
  - erewrite ReleaseAllLocks_run by (wsimpl; apply lookup_insert_eq).
    wsimpl. simpl. rewrite (left_id_L ∅ (∪)), elements_empty. simpl.
    by rewrite insert_insert_eq, app_nil_r.
  - intros Hs Hx. rewrite Hs, Hx, (left_id_L ∅ (∪)), elements_empty. simpl.
    rewrite app_nil_r, <- Hs at 1. rewrite <- Hx at 1.
    rewrite set_lock_sets_id, insert_id by done. by destruct w.
Qed.

(** ** The write operations *)

(** On an allocated context that is not ABORTED, [Insert], [Update] and
    [Delete] return with the world exactly as it was: they call neither
    the lock manager nor the table heap, take no lock and register no
    action. *)
Theorem write_operations_change_nothing w p c rid tuple ti :
  heap w !! p = Some c →
  state_ c ≠ TransactionState.ABORTED →
  Insert p tuple ti w = Returned tt w
  ∧ Update p tuple rid ti w = Returned tt w
  ∧ Delete p rid ti w = Returned tt w.
Proof.
  intros Hp Hlive. unfold Insert, Update, Delete.
  repeat split; run_with IsAborted_run;
    rewrite bool_decide_false by done; try done.
Qed.

(** ** A destroyed context *)

Lemma dangling_first_deref {A B} (k : TwoPLContext → M A) (k' : A → M B) w p :
  heap w !! p = None →
  ((c ← deref p; k c) ≫= k') w = Crashed (UseAfterFree p) w.
Proof.
  intros Hp. erewrite run_bind_crash; [done|].
  erewrite run_bind_crash; [done|]. by apply deref_dangling.
Qed.

(** Once [Commit] or [Abort] has returned, the context is gone: every
    operation of the manager on the same context stops at its first
    dereference, before any call on a collaborator. *)
Theorem no_operation_after_finalization w p c rid tuple ti :
  heap w !! p = Some c →
  ∃ wc wa, Commit p w = Returned tt wc ∧ Abort p w = Returned tt wa
    ∧ ∀ w', w' = wc ∨ w' = wa →
        Read p rid ti w' = Crashed (UseAfterFree p) w'
        ∧ Insert p tuple ti w' = Crashed (UseAfterFree p) w'
        ∧ Update p tuple rid ti w' = Crashed (UseAfterFree p) w'
        ∧ Delete p rid ti w' = Crashed (UseAfterFree p) w'
        ∧ ReleaseAllLocks p w' = Crashed (UseAfterFree p) w'
        ∧ Commit p w' = Crashed (UseAfterFree p) w'
        ∧ Abort p w' = Crashed (UseAfterFree p) w'.
Proof.
  intros Hp. eexists _, _.
  split; [by apply Commit_run|]. split; [by apply Abort_run|].
  intros w' Hw'.
  assert (Hgone : heap w' !! p = None).
  { destruct Hw' as [-> | ->]; apply lookup_delete_eq. }
  repeat split.
  - unfold Read, IsAborted. by apply dangling_first_deref.
  - unfold Insert, IsAborted. by apply dangling_first_deref.
  - unfold Update, IsAborted. by apply dangling_first_deref.
  - unfold Delete, IsAborted. by apply dangling_first_deref.
  - unfold ReleaseAllLocks. erewrite run_bind_crash; [done|].
    by apply deref_dangling.
  - unfold Commit, SetCommitted. by apply dangling_first_deref.
  - by apply Abort_dangling.
Qed.

Lemma Read_refuses_aborted_context w p c rid ti :
  heap w !! p = Some c →
  state_ c = TransactionState.ABORTED →
  state_violation (Read p rid ti) w.
Proof.
  intros Hp Hst. unfold state_violation, Read.
  run_with IsAborted_run. by rewrite bool_decide_true by done.
Qed.

(** ** Read, further *)

(** [Read] changes only the lock sets and the state of its own context.
    The transaction map, the table heaps, every other context, and the
    id, isolation level and action queues of its context are as before,
    and no registered action is called. *)
Theorem Read_changes_only_own_locks w p c rid ti :
  heap w !! p = Some c →
  state_ c ≠ TransactionState.ABORTED →
  ∃ r w' c' evs, Read p rid ti w = Returned r w'
    ∧ heap w' = <[p := c']> (heap w)
    ∧ trace w' = trace w ++ evs
    ∧ txn_map_ w' = txn_map_ w ∧ storage w' = storage w
    ∧ next_txn_id_ w' = next_txn_id_ w
    ∧ (∀ q, q ≠ p → heap w' !! q = heap w !! q)
    ∧ txn_id_ c' = txn_id_ c
    ∧ isolation_level_ c' = isolation_level_ c
    ∧ commit_action_ c' = commit_action_ c
    ∧ abort_action_ c' = abort_action_ c
    ∧ actions_called evs = [].
Proof.
  intros Hp Hlive. eexists _, _, _, _.
  split; [by apply Read_returns|]. wsimpl.
  split; [done|]. split; [done|]. split; [done|]. split; [done|].
  split; [done|].
  split; [intros q Hq; by apply lookup_insert_ne|].
  read_cases c rid; read_done.
Qed.

(** The result of [Read] is decided by the fetch alone, whatever the
    lock manager answered: OK with the fetched tuple when [GetTuple]
    succeeds, SKIP with no tuple when it fails.  [Read] returns no other
    error code. *)
Theorem Read_result_follows_GetTuple w p c rid ti :
  heap w !! p = Some c →
  state_ c ≠ TransactionState.ABORTED →
  ∃ res got w', Read p rid ti w = Returned (res, got) w'
    ∧ got = GetTuple (storage w) ti rid
    ∧ (∀ tuple, got = Some tuple → res = ErrorCode.OK)
    ∧ (got = None → res = ErrorCode.SKIP)
    ∧ (res = ErrorCode.OK ∨ res = ErrorCode.SKIP)
    ∧ ∃ evs, trace w' = trace w ++ evs ∧ EvGetTuple ti rid ∈ evs.
Proof.
  intros Hp Hlive. eexists _, _, _.
  split; [by apply Read_returns|]. split; [done|].
  destruct (GetTuple (storage w) ti rid) as [tuple|]; repeat split;
    try done; try (by left); try (by right);
    try (eexists; split; [done|]; unfold Read_events; set_solver).
Qed.

(** When [Read] has to request the shared lock and the lock manager
    answers by making the transaction the deadlock victim, [Read] does not
    stop: it still fetches the tuple and returns what the fetch gives, OK
    included.  The context is left ABORTED with its lock sets as they
    were, nothing is unlocked, and the next data operation on the context
    stops at its assertion. *)
Theorem Read_goes_on_after_lock_refusal w p c rid ti :
  heap w !! p = Some c →
  state_ c ≠ TransactionState.ABORTED →
  isolation_level_ c ≠ IsolationLevel.READ_UNCOMMITTED →
  rid ∉ shared_lock_set_ c →
  rid ∉ exclusive_lock_set_ c →
  lm_grants (txn_id_ c) rid = false →
  ∃ res w', Read p rid ti w = Returned (res, GetTuple (storage w) ti rid) w'
    ∧ (is_Some (GetTuple (storage w) ti rid) → res = ErrorCode.OK)
    ∧ heap w' !! p = Some (set_state TransactionState.ABORTED c)
    ∧ trace w' = trace w ++ [EvLockShared (txn_id_ c) rid; EvGetTuple ti rid]
    ∧ ∀ rid2 ti2, state_violation (Read p rid2 ti2) w'.
Proof.
  intros Hp Hlive Hlvl Hs Hx Hno.
  assert (Hctx : Read_after_release (Read_after_acquire c rid) rid
                 = set_state TransactionState.ABORTED c).
  { read_cases c rid; read_done. }
  assert (Hevs : Read_events c rid ti
                 = [EvLockShared (txn_id_ c) rid; EvGetTuple ti rid]).
  { read_cases c rid; read_done. }
  eexists _, _. split; [by apply Read_returns|]. wsimpl.
  rewrite Hctx, Hevs.
  split; [by intros [tuple ->]|].
  split; [apply lookup_insert_eq|]. split; [done|].
  intros rid2 ti2.
  eapply Read_refuses_aborted_context.
  - wsimpl. apply lookup_insert_eq.
  - done.
Qed.

Lemma Read_only_fetches w p c rid ti :
  heap w !! p = Some c →
  state_ c ≠ TransactionState.ABORTED →
  Read_requests_lock c rid = false →
  Read_releases_lock c rid = false →
  Read p rid ti w =
  Returned (if GetTuple (storage w) ti rid is Some _
            then ErrorCode.OK else ErrorCode.SKIP,
            GetTuple (storage w) ti rid)
           (mkWorld (heap w) (txn_map_ w) (next_txn_id_ w) (storage w)
                    (trace w ++ [EvGetTuple ti rid])).
Proof.
  intros Hp Hlive Hreq Hrel. rewrite (Read_returns _ _ _ _ _ Hp Hlive).
  unfold Read_events, Read_after_release, Read_after_acquire.
  rewrite Hreq, Hrel. simpl. by rewrite insert_id.
Qed.

(** Under READ_UNCOMMITTED [Read] never calls the lock manager, neither
    to lock nor to unlock, whatever locks the context holds: its only call
    is the fetch, and every context is left as it was. *)
Theorem Read_uncommitted_only_fetches w p c rid ti :
  heap w !! p = Some c →
  state_ c ≠ TransactionState.ABORTED →
  isolation_level_ c = IsolationLevel.READ_UNCOMMITTED →
  ∃ r w', Read p rid ti w = Returned r w'
    ∧ trace w' = trace w ++ [EvGetTuple ti rid]
    ∧ heap w' = heap w.
Proof.
  intros Hp Hlive Hlvl. eexists _, _.
  split.
  { apply (Read_only_fetches w p c); try done.
    - unfold Read_requests_lock. by rewrite bool_decide_false by tauto.
    - unfold Read_releases_lock. by rewrite bool_decide_false by congruence. }
  split; reflexivity.
Qed.

Lemma Read_locks_fetches_unlocks w p c rid ti :
  heap w !! p = Some c →
  state_ c ≠ TransactionState.ABORTED →
  isolation_level_ c = IsolationLevel.READ_COMMITTED →
  rid ∉ shared_lock_set_ c →
  rid ∉ exclusive_lock_set_ c →
  lm_grants (txn_id_ c) rid = true →
  Read p rid ti w =
  Returned (if GetTuple (storage w) ti rid is Some _
            then ErrorCode.OK else ErrorCode.SKIP,
            GetTuple (storage w) ti rid)
           (mkWorld (heap w) (txn_map_ w) (next_txn_id_ w) (storage w)
                    (trace w ++ [EvLockShared (txn_id_ c) rid;
                                 EvGetTuple ti rid;
                                 EvUnlock (txn_id_ c) rid])).
Proof.
  intros Hp Hlive Hlvl Hs Hx Hyes. rewrite (Read_returns _ _ _ _ _ Hp Hlive).
  assert (Hevs : Read_events c rid ti
                 = [EvLockShared (txn_id_ c) rid; EvGetTuple ti rid;
                    EvUnlock (txn_id_ c) rid])
    by (read_cases c rid; read_done).
  assert (Hsets : ({[rid]} ∪ shared_lock_set_ c) ∖ {[rid]} = shared_lock_set_ c
                  ∧ exclusive_lock_set_ c ∖ {[rid]} = exclusive_lock_set_ c)
    by (split; set_solver).
  destruct Hsets as [Hs' Hx'].
  assert (Hctx : Read_after_release (Read_after_acquire c rid) rid = c).
  { unfold Read_after_release, Read_releases_lock, Read_after_acquire,
      Read_requests_lock.
    rewrite Hyes.
    rewrite (bool_decide_true (isolation_level_ c ≠ _)) by congruence.
    rewrite (bool_decide_false (rid ∈ shared_lock_set_ c)) by done.
    rewrite (bool_decide_false (rid ∈ exclusive_lock_set_ c)) by done.
    simpl. rewrite (bool_decide_true (isolation_level_ c = _)) by done.
    rewrite bool_decide_true by (apply elem_of_union_l, elem_of_singleton_2;
                                 done).
    simpl. rewrite Hs', Hx'. by destruct c. }
  by rewrite Hevs, Hctx, insert_id.
Qed.

(** Under READ_COMMITTED a [Read] of a RID on which the context holds no
    lock is a round trip on the lock sets when the lock is granted: the
    lock is requested, the tuple fetched and the lock released, in this
    order, and the context ends exactly as it began. *)
Theorem Read_committed_lock_round_trip w p c rid ti :
  heap w !! p = Some c →
  state_ c ≠ TransactionState.ABORTED →
  isolation_level_ c = IsolationLevel.READ_COMMITTED →
  rid ∉ shared_lock_set_ c →
  rid ∉ exclusive_lock_set_ c →
  lm_grants (txn_id_ c) rid = true →
  ∃ r w', Read p rid ti w = Returned r w'
    ∧ trace w' = trace w ++ [EvLockShared (txn_id_ c) rid;
                             EvGetTuple ti rid;
                             EvUnlock (txn_id_ c) rid]
    ∧ heap w' = heap w.
Proof.
  intros Hp Hlive Hlvl Hs Hx Hyes. eexists _, _.
  split; [by apply Read_locks_fetches_unlocks|]. split; reflexivity.
Qed.

(** Under REPEATABLE_READ and SERIALIZABLE a lock taken by [Read] is
    kept: once a [Read] of a RID has returned with the lock granted (or
    already held), a further [Read] of the same RID makes no call on the
    lock manager, only the fetch, and leaves every context as it is. *)
Theorem Read_again_requests_no_lock w p c rid ti ti2 :
  heap w !! p = Some c →
  state_ c ≠ TransactionState.ABORTED →
  isolation_level_ c = IsolationLevel.REPEATABLE_READ
  ∨ isolation_level_ c = IsolationLevel.SERIALIZABLE →
  lm_grants (txn_id_ c) rid = true →
  ∃ r1 w1 r2 w2, Read p rid ti w = Returned r1 w1
    ∧ Read p rid ti2 w1 = Returned r2 w2
    ∧ trace w2 = trace w1 ++ [EvGetTuple ti2 rid]
    ∧ heap w2 = heap w1.
Proof.
  intros Hp Hlive Hlvl Hyes.
  set (c1 := Read_after_release (Read_after_acquire c rid) rid).
  assert (Hc1 : state_ c1 ≠ TransactionState.ABORTED
                ∧ Read_requests_lock c1 rid = false
                ∧ Read_releases_lock c1 rid = false).
  { subst c1. unfold Read_requests_lock at 1, Read_releases_lock at 1.
    read_cases c rid; read_done. }
  destruct Hc1 as (Hlive1 & Hreq1 & Hrel1).
  eexists _, _, _, _. split; [by apply Read_returns|].
  split.
  { apply Read_only_fetches with (c := c1); try done.
    wsimpl. apply lookup_insert_eq. }
  split; reflexivity.
Qed.

(** ** Sequences of reads *)

Lemma lock_shared_calls_app (evs1 evs2 : list Event) :
  lock_shared_calls (evs1 ++ evs2)
  = lock_shared_calls evs1 ++ lock_shared_calls evs2.
Proof. apply omap_app. Qed.

Lemma lock_shared_calls_Unlock t (l : list RID) :
  lock_shared_calls (map (EvUnlock t) l) = [].
Proof. induction l as [|r l IH]; simpl; done. Qed.

Lemma lock_shared_calls_Action (l : list Action) :
  lock_shared_calls (map EvAction l) = [].
Proof. induction l as [|a l IH]; simpl; done. Qed.

Lemma reads_committed_run (rids : list RID) w p c ti :
  heap w !! p = Some c →
  state_ c ≠ TransactionState.ABORTED →
  isolation_level_ c = IsolationLevel.READ_COMMITTED →
  shared_lock_set_ c = ∅ →
  (∀ rid, rid ∈ rids → lm_grants (txn_id_ c) rid = true) →
  ∃ evs,
    for_each rids (λ rid, _ ← Read p rid ti; mret tt) w
    = Returned tt (mkWorld (heap w) (txn_map_ w) (next_txn_id_ w) (storage w)
                           (trace w ++ evs))
    ∧ lock_shared_calls evs = unlock_calls evs
    ∧ (∀ t rid, (t, rid) ∈ lock_shared_calls evs ↔
         t = txn_id_ c ∧ rid ∈ rids ∧ rid ∉ exclusive_lock_set_ c).
Proof.
  intros Hp Hlive Hlvl Hs. revert w Hp.
  induction rids as [|r rids IH]; intros w Hp Hyes.
  - exists []. simpl. unfold mret, M_ret. rewrite app_nil_r.
    split; [by destruct w|]. split; [done|].
    intros t rid. split; [by intros ?%elem_of_nil|].
    by intros (_ & ?%elem_of_nil & _).
  - destruct (IH (mkWorld (heap w) (txn_map_ w) (next_txn_id_ w) (storage w)
                    (trace w ++ (if decide (r ∈ exclusive_lock_set_ c)
                                 then [EvGetTuple ti r]
                                 else [EvLockShared (txn_id_ c) r;
                                       EvGetTuple ti r;
                                       EvUnlock (txn_id_ c) r]))))
      as (evs & Hrun & Hbal & Hin); [done | |].
    { intros rid Hrid. apply Hyes. by right. }
    destruct (decide (r ∈ exclusive_lock_set_ c)) as [Hx|Hx].
    + exists (EvGetTuple ti r :: evs). split; [|split].
      * simpl for_each.
        erewrite run_bind; last first.
        { erewrite run_bind; [reflexivity|].
          apply (Read_only_fetches w p c); try done.
          - unfold Read_requests_lock.
            rewrite (bool_decide_true (r ∈ exclusive_lock_set_ c)) by done.
            by rewrite andb_false_r.
          - unfold Read_releases_lock.
            rewrite (bool_decide_false (r ∈ shared_lock_set_ c))
              by (rewrite Hs; apply not_elem_of_empty).
            by rewrite andb_false_r. }
        rewrite Hrun. wsimpl. by rewrite <- app_assoc.
      * done.
      * intros t rid. simpl. rewrite Hin, elem_of_cons.
        split; [tauto|]. intros (-> & [-> | Hrid] & Hnx); tauto.
    + exists ([EvLockShared (txn_id_ c) r; EvGetTuple ti r;
               EvUnlock (txn_id_ c) r] ++ evs).
      split; [|split].
      * simpl for_each.
        erewrite run_bind; last first.
        { erewrite run_bind; [reflexivity|].
          apply (Read_locks_fetches_unlocks w p c); try done.
          - rewrite Hs. apply not_elem_of_empty.
          - apply Hyes. by left. }
        rewrite Hrun. wsimpl. by rewrite <- app_assoc.
      * simpl. by rewrite Hbal.
      * intros t rid. simpl. rewrite elem_of_cons, Hin, elem_of_cons.
        split.
        -- intros [[= -> ->] | (-> & Hrid & Hnx)]; tauto.
        -- intros (-> & [-> | Hrid] & Hnx); [by left | right; tauto].
Qed.

(** Under READ_COMMITTED, a transaction that holds no shared lock and
    reads any sequence of RIDs, every request being granted, ends with
    its context exactly as it began: every shared lock it takes it gives
    back within the same [Read].  The locks requested are those of the
    RIDs read that it does not hold in exclusive mode, and the unlock
    calls are the same as the lock requests. *)
Theorem reads_committed_keep_no_lock (rids : list RID) w p c ti :
  heap w !! p = Some c →
  state_ c ≠ TransactionState.ABORTED →
  isolation_level_ c = IsolationLevel.READ_COMMITTED →
  shared_lock_set_ c = ∅ →
  (∀ rid, rid ∈ rids → lm_grants (txn_id_ c) rid = true) →
  ∃ w' evs,
    for_each rids (λ rid, _ ← Read p rid ti; mret tt) w = Returned tt w'
    ∧ trace w' = trace w ++ evs
    ∧ heap w' = heap w
    ∧ lock_shared_calls evs = unlock_calls evs
    ∧ (∀ t rid, (t, rid) ∈ lock_shared_calls evs ↔
         t = txn_id_ c ∧ rid ∈ rids ∧ rid ∉ exclusive_lock_set_ c).
Proof.
  intros Hp Hlive Hlvl Hs Hyes.
  destruct (reads_committed_run rids w p c ti) as (evs & Hrun & Hbal & Hin);
    try done.
  eexists _, _. split; [exact Hrun|]. by wsimpl.
Qed.

Lemma Read_locks_and_keeps w p c rid ti :
  heap w !! p = Some c →
  state_ c ≠ TransactionState.ABORTED →
  isolation_level_ c = IsolationLevel.REPEATABLE_READ
  ∨ isolation_level_ c = IsolationLevel.SERIALIZABLE →
  rid ∉ shared_lock_set_ c →
  rid ∉ exclusive_lock_set_ c →
  lm_grants (txn_id_ c) rid = true →
  Read p rid ti w =
  Returned (if GetTuple (storage w) ti rid is Some _
            then ErrorCode.OK else ErrorCode.SKIP,
            GetTuple (storage w) ti rid)
           (mkWorld (<[p := set_lock_sets ({[rid]} ∪ shared_lock_set_ c)
                                          (exclusive_lock_set_ c) c]> (heap w))
                    (txn_map_ w) (next_txn_id_ w) (storage w)
                    (trace w ++ [EvLockShared (txn_id_ c) rid;
                                 EvGetTuple ti rid])).
Proof.
  intros Hp Hlive Hlvl Hs Hx Hyes. rewrite (Read_returns _ _ _ _ _ Hp Hlive).
  assert (Hevs : Read_events c rid ti
                 = [EvLockShared (txn_id_ c) rid; EvGetTuple ti rid])
    by (read_cases c rid; read_done).
  assert (Hctx : Read_after_release (Read_after_acquire c rid) rid
                 = set_lock_sets ({[rid]} ∪ shared_lock_set_ c)
                                 (exclusive_lock_set_ c) c).
  { unfold Read_after_release, Read_releases_lock, Read_after_acquire,
      Read_requests_lock.
    rewrite Hyes.
    rewrite (bool_decide_true (isolation_level_ c ≠ _))
      by (destruct Hlvl; congruence).
    rewrite (bool_decide_false (rid ∈ shared_lock_set_ c)) by done.
    rewrite (bool_decide_false (rid ∈ exclusive_lock_set_ c)) by done.
    simpl. rewrite (bool_decide_false (isolation_level_ c = _))
      by (destruct Hlvl; congruence).
    done. }
  by rewrite Hevs, Hctx.
Qed.

Lemma reads_repeatable_run (rids : list RID) w p c ti :
  heap w !! p = Some c →
  state_ c ≠ TransactionState.ABORTED →
  isolation_level_ c = IsolationLevel.REPEATABLE_READ
  ∨ isolation_level_ c = IsolationLevel.SERIALIZABLE →
  (∀ rid, rid ∈ rids → lm_grants (txn_id_ c) rid = true) →
  ∃ evs,
    for_each rids (λ rid, _ ← Read p rid ti; mret tt) w
    = Returned tt
        (mkWorld (<[p := set_lock_sets
                            (shared_lock_set_ c
                             ∪ (list_to_set rids ∖ exclusive_lock_set_ c))
                            (exclusive_lock_set_ c) c]> (heap w))
                 (txn_map_ w) (next_txn_id_ w) (storage w)
                 (trace w ++ evs))
    ∧ unlock_calls evs = []
    ∧ NoDup (lock_shared_calls evs)
    ∧ (∀ t rid, (t, rid) ∈ lock_shared_calls evs ↔
         t = txn_id_ c ∧ rid ∈ rids
         ∧ (rid ∉ shared_lock_set_ c) ∧ (rid ∉ exclusive_lock_set_ c)).
Proof.
  revert w c. induction rids as [|r rids IH]; intros w c Hp Hlive Hlvl Hyes.
  - exists []. simpl. unfold mret, M_ret. rewrite app_nil_r.
    assert (Hsame : shared_lock_set_ c ∪ (∅ ∖ exclusive_lock_set_ c)
                    = shared_lock_set_ c) by (clear; set_solver).
    rewrite Hsame, set_lock_sets_id, insert_id by done.
    split; [by destruct w|]. split; [done|]. split; [constructor|].
    intros t rid. split; [by intros ?%elem_of_nil|].
    by intros (_ & ?%elem_of_nil & _).
  - assert (Hrest : ∀ rid, rid ∈ rids → lm_grants (txn_id_ c) rid = true).
    { intros rid Hrid. apply Hyes. by right. }
    destruct (decide (r ∈ shared_lock_set_ c ∨ r ∈ exclusive_lock_set_ c))
      as [Hheld|Hfree].
    + assert (Hset : shared_lock_set_ c
                     ∪ (list_to_set rids ∖ exclusive_lock_set_ c)
                     = shared_lock_set_ c
                       ∪ (({[r]} ∪ list_to_set rids) ∖ exclusive_lock_set_ c))
        by (clear -Hheld; set_solver).
      destruct (IH (mkWorld (heap w) (txn_map_ w) (next_txn_id_ w)
                      (storage w) (trace w ++ [EvGetTuple ti r])) c)
        as (evs & Hrun & Hnone & Hnd & Hin); try done.
      exists (EvGetTuple ti r :: evs). split; [|split; [done|split; [done|]]].
      * simpl for_each.
        erewrite run_bind; last first.
        { erewrite run_bind; [reflexivity|].
          apply (Read_only_fetches w p c); try done.
          - unfold Read_requests_lock.
            destruct Hheld as [Hh|Hh]; rewrite (bool_decide_true _ Hh);
              by rewrite ?andb_false_r.
          - unfold Read_releases_lock.
            rewrite (bool_decide_false (isolation_level_ c = _))
              by (destruct Hlvl; congruence).
            done. }
        rewrite Hrun. wsimpl. rewrite <- app_assoc. simpl.
        by rewrite Hset.
      * intros t rid. simpl. rewrite Hin, elem_of_cons.
        split; [tauto|]. intros (-> & [-> | Hrid] & Hns & Hnx); tauto.
    + assert (Hs : r ∉ shared_lock_set_ c) by tauto.
      assert (Hx : r ∉ exclusive_lock_set_ c) by tauto.
      assert (Hset : ({[r]} ∪ shared_lock_set_ c)
                     ∪ (list_to_set rids ∖ exclusive_lock_set_ c)
                     = shared_lock_set_ c
                       ∪ (({[r]} ∪ list_to_set rids) ∖ exclusive_lock_set_ c))
        by (clear -Hx; set_solver).
      set (c1 := set_lock_sets ({[r]} ∪ shared_lock_set_ c)
                               (exclusive_lock_set_ c) c).
      destruct (IH (mkWorld (<[p := c1]> (heap w)) (txn_map_ w)
                      (next_txn_id_ w) (storage w)
                      (trace w ++ [EvLockShared (txn_id_ c) r;
                                   EvGetTuple ti r])) c1)
        as (evs & Hrun & Hnone & Hnd & Hin); try done.
      { wsimpl. apply lookup_insert_eq. }
      exists ([EvLockShared (txn_id_ c) r; EvGetTuple ti r] ++ evs).
      split; [|split; [done|split]].
      * simpl for_each.
        erewrite run_bind; last first.
        { erewrite run_bind; [reflexivity|].
          apply (Read_locks_and_keeps w p c); try done.
          apply Hyes. by left. }
        fold c1. rewrite Hrun. wsimpl. rewrite <- app_assoc, insert_insert_eq.
        subst c1. unfold set_lock_sets. simpl. by rewrite Hset.
      * simpl. apply NoDup_cons. split; [|done].
        rewrite Hin. intros (_ & _ & Hn & _). apply Hn. subst c1. simpl.
        by apply elem_of_union_l, elem_of_singleton_2.
      * intros t rid. simpl. rewrite elem_of_cons, Hin, elem_of_cons.
        subst c1. simpl. rewrite not_elem_of_union, not_elem_of_singleton.
        split.
        -- intros [[= -> ->] | (-> & Hrid & [Hne Hns] & Hnx)]; tauto.
        -- intros (-> & [-> | Hrid] & Hns & Hnx); [by left|].
           destruct (decide (rid = r)) as [->|Hne]; [by left|].
           right. tauto.
Qed.

Lemma lock_shared_calls_finalized t (q : list Action) (l : list RID) ev p :
  (if ev is EvLockShared _ _ then False else True) →
  lock_shared_calls ([ev] ++ map EvAction q ++ map (EvUnlock t) l
                     ++ [EvRemoveTransactionContext t; EvDelete p])
  = [].
Proof.
  intros Hev.
  rewrite !lock_shared_calls_app, lock_shared_calls_Action,
    lock_shared_calls_Unlock.
  destruct ev; try done.
Qed.

(** Two-phase locking of the reads under REPEATABLE_READ and
    SERIALIZABLE.  Whatever sequence of RIDs a transaction reads, every
    request being granted, no lock is released while it reads; [Commit],
    and [Abort] alike, then requests no lock and unlocks, each exactly
    once, every RID that was read or was held before, so every lock
    requested by a [Read] is released at the end and not earlier. *)
Theorem reads_then_finalize_two_phase (rids : list RID) w p c ti :
  heap w !! p = Some c →
  state_ c ≠ TransactionState.ABORTED →
  isolation_level_ c = IsolationLevel.REPEATABLE_READ
  ∨ isolation_level_ c = IsolationLevel.SERIALIZABLE →
  (∀ rid, rid ∈ rids → lm_grants (txn_id_ c) rid = true) →
  ∃ w1 wc wa evs1 evsc evsa,
    for_each rids (λ rid, _ ← Read p rid ti; mret tt) w = Returned tt w1
    ∧ Commit p w1 = Returned tt wc
    ∧ Abort p w1 = Returned tt wa
    ∧ trace w1 = trace w ++ evs1
    ∧ trace wc = trace w1 ++ evsc
    ∧ trace wa = trace w1 ++ evsa
    ∧ unlock_calls evs1 = []
    ∧ lock_shared_calls evsc = [] ∧ lock_shared_calls evsa = []
    ∧ unlock_calls evsa = unlock_calls evsc
    ∧ NoDup (unlock_calls evsc)
    ∧ (∀ t rid, (t, rid) ∈ unlock_calls evsc ↔
         t = txn_id_ c
         ∧ (rid ∈ rids ∨ rid ∈ shared_lock_set_ c
            ∨ rid ∈ exclusive_lock_set_ c))
    ∧ (∀ x, x ∈ lock_shared_calls evs1 → x ∈ unlock_calls evsc).
Proof.
  intros Hp Hlive Hlvl Hyes.
  destruct (reads_repeatable_run rids w p c ti)
    as (evs1 & Hrun & Hnone & Hnd & Hin); try done.
  set (c' := set_lock_sets
               (shared_lock_set_ c
                ∪ (list_to_set rids ∖ exclusive_lock_set_ c))
               (exclusive_lock_set_ c) c) in *.
  destruct (drained_pairs (txn_id_ c)
              (exclusive_lock_set_ c' ∪ shared_lock_set_ c')) as [Hnd' Hin'].
  assert (Hmem : ∀ t rid,
    (t, rid) ∈ map (pair (txn_id_ c))
                   (elements (exclusive_lock_set_ c' ∪ shared_lock_set_ c')) ↔
    t = txn_id_ c
    ∧ (rid ∈ rids ∨ rid ∈ shared_lock_set_ c ∨ rid ∈ exclusive_lock_set_ c)).
  { intros t rid. rewrite Hin'. subst c'. simpl.
    rewrite !elem_of_union, elem_of_difference, elem_of_list_to_set.
    destruct (decide (rid ∈ exclusive_lock_set_ c)); tauto. }
  eexists _, _, _, evs1, _, _.
  split; [exact Hrun|].
  split; [apply Commit_run; wsimpl; apply lookup_insert_eq|].
  split; [apply Abort_run; wsimpl; apply lookup_insert_eq|].
  fold c'. unfold finalized. wsimpl.
  change (txn_id_ c') with (txn_id_ c).
  split; [done|]. split; [done|]. split; [done|]. split; [done|].
  rewrite !lock_shared_calls_finalized, !unlock_calls_finalized by done.
  split; [done|]. split; [done|]. split; [done|]. split; [done|].
  split; [done|].
  intros [t rid] Hx. apply Hmem. apply Hin in Hx. tauto.
Qed.

End Properties.

(** ** The manager on the concrete table heap *)

Import Demo.
#[local] Existing Instance granting.

(** C1, on the code. [Abort] calls the abort actions oldest first: after
    two updates of row 7 the restoring call of the first update runs
    before that of the second, and the row ends at 71, the image between
    the two updates, instead of 70. *)
Theorem Abort_calls_abort_actions_oldest_first :
  ∃ w' evs, Abort txn (world_of rows1 twice_updated) = Returned tt w'
    ∧ trace w' = trace (world_of rows1 twice_updated) ++ evs
    ∧ actions_called evs = [UpdateTuple 7 70; UpdateTuple 7 71]
    ∧ actions_called evs ≠ rev [UpdateTuple 7 70; UpdateTuple 7 71]
    ∧ storage w' !! 7%N = Some (71, false).
Proof.
  destruct (Abort_calls_queue_front_to_back (world_of rows1 twice_updated)
              txn twice_updated eq_refl)
    as (w' & evs & Hrun & Htr & Hacts & Hst).
  exists w', evs. split; [done|]. split; [done|]. split; [done|].
  split; [by rewrite Hacts|]. rewrite Hst. vm_compute. reflexivity.
Qed.

(** C4, on the code. [Insert] on a live context returns with the world
    as it was: no tuple is inserted, no exclusive lock is taken and no
    abort action is registered. *)
Theorem Insert_on_live_context_changes_nothing :
  Insert txn tuple5 table (world_of rows0 fresh_rr)
  = Returned tt (world_of rows0 fresh_rr).
Proof. vm_compute. reflexivity. Qed.

(** C2, as stated, fails: a COMMITTED context passes the assertion.
    [Read] goes on to request the lock and to fetch the tuple, and
    [Insert] returns normally. *)
Lemma committed_context_is_not_refused :
  heap (world_of rows0 committed_rr) !! txn = Some committed_rr
  ∧ state_ committed_rr = TransactionState.COMMITTED
  ∧ ¬ state_violation (Read txn 7%N table) (world_of rows0 committed_rr)
  ∧ (∃ w', Read txn 7%N table (world_of rows0 committed_rr)
           = Returned (ErrorCode.OK, Some 70) w'
         ∧ trace w' = [EvLockShared 1 7; EvGetTuple table 7])
  ∧ ¬ state_violation (Insert txn tuple5 table)
                      (world_of rows0 committed_rr).
Proof.
  split; [by vm_compute|]. split; [done|].
  assert (Hread : ∃ w', Read txn 7%N table (world_of rows0 committed_rr)
                        = Returned (ErrorCode.OK, Some 70) w'
                      ∧ trace w' = [EvLockShared 1 7; EvGetTuple table 7]).
  { eexists. split; [vm_compute; reflexivity|]. reflexivity. }
  split; [|split; [done|]].
  - destruct Hread as (w' & Hr & _). unfold state_violation.
    rewrite Hr. discriminate.
  - unfold state_violation. intros Hc. vm_compute in Hc. discriminate Hc.
Qed.

Lemma data_operations_refuse_aborted_context_witness :
  state_violation (Read txn 7%N table) (world_of rows0 aborted_rr)
  ∧ state_violation (Insert txn tuple5 table) (world_of rows0 aborted_rr)
  ∧ state_violation (Update txn tuple5 7%N table) (world_of rows0 aborted_rr)
  ∧ state_violation (Delete txn 7%N table) (world_of rows0 aborted_rr).
Proof.
  apply (data_operations_refuse_aborted_context
           (world_of rows0 aborted_rr) txn aborted_rr);
    reflexivity.
Defined.

(** C3, as stated, fails: the second [Abort] on the same context does not
    return with the world unchanged. *)
Lemma second_Abort_is_not_a_no_op :
  ∃ w1, Abort txn (world_of rows1 twice_updated) = Returned tt w1
    ∧ Abort txn w1 ≠ Returned tt w1.
Proof.
  eexists. split; [by apply Abort_run|].
  rewrite Abort_dangling by apply lookup_delete_eq. discriminate.
Qed.

Lemma Abort_destroys_context_witness :
  ∃ w1, Abort txn (world_of rows1 twice_updated) = Returned tt w1
    ∧ heap w1 !! txn = None
    ∧ txn_map_ w1 !! txn_id_ twice_updated = None
    ∧ Abort txn w1 = Crashed (UseAfterFree txn) w1.
Proof.
  apply (Abort_destroys_context (world_of rows1 twice_updated)
           txn twice_updated).
  reflexivity.
Defined.

Lemma finalization_order_witness :
  (∃ w', Commit txn (world_of rows1 overlapping) = Returned tt w'
     ∧ trace w' = trace (world_of rows1 overlapping)
         ++ [EvSetCommitted (txn_id_ overlapping)]
         ++ map EvAction (commit_action_ overlapping)
         ++ map (EvUnlock (txn_id_ overlapping))
                (elements (exclusive_lock_set_ overlapping
                           ∪ shared_lock_set_ overlapping))
         ++ [EvRemoveTransactionContext (txn_id_ overlapping); EvDelete txn])
  ∧ (∃ w' acts, Abort txn (world_of rows1 overlapping) = Returned tt w'
     ∧ acts ≡ₚ abort_action_ overlapping
     ∧ trace w' = trace (world_of rows1 overlapping)
         ++ [EvSetAborted (txn_id_ overlapping)]
         ++ map EvAction acts
         ++ map (EvUnlock (txn_id_ overlapping))
                (elements (exclusive_lock_set_ overlapping
                           ∪ shared_lock_set_ overlapping))
         ++ [EvRemoveTransactionContext (txn_id_ overlapping); EvDelete txn]).
Proof.
  apply (finalization_order (world_of rows1 overlapping) txn overlapping).
  reflexivity.
Defined.

Lemma locks_drained_at_finalization_witness :
  (∃ (w' : @World granting) (c' : @TwoPLContext granting),
     ReleaseAllLocks txn (world_of rows1 overlapping) = Returned tt w'
     ∧ drained (world_of rows1 overlapping) txn overlapping w'
     ∧ heap w' !! txn = Some c'
     ∧ shared_lock_set_ c' = ∅ ∧ exclusive_lock_set_ c' = ∅)
  ∧ (∃ w', Commit txn (world_of rows1 overlapping) = Returned tt w'
       ∧ drained (world_of rows1 overlapping) txn overlapping w')
  ∧ (∃ w', Abort txn (world_of rows1 overlapping) = Returned tt w'
       ∧ drained (world_of rows1 overlapping) txn overlapping w').
Proof.
  apply (locks_drained_at_finalization
           (world_of rows1 overlapping) txn overlapping).
  reflexivity.
Defined.

Lemma Read_shared_lock_acquisition_policy_witness :
  ∃ r w' evs, Read txn 7%N table (world_of rows0 fresh_rr) = Returned r w'
    ∧ trace w' = trace (world_of rows0 fresh_rr) ++ evs
    ∧ (isolation_level_ fresh_rr = IsolationLevel.READ_UNCOMMITTED →
         lock_shared_calls evs = [])
    ∧ (isolation_level_ fresh_rr ≠ IsolationLevel.READ_UNCOMMITTED →
         ((7%N ∉ shared_lock_set_ fresh_rr)
          ∧ (7%N ∉ exclusive_lock_set_ fresh_rr) →
            lock_shared_calls evs = [(txn_id_ fresh_rr, 7%N)])
         ∧ (7%N ∈ shared_lock_set_ fresh_rr
            ∨ 7%N ∈ exclusive_lock_set_ fresh_rr →
            lock_shared_calls evs = [])).
Proof.
  apply (Read_shared_lock_acquisition_policy
           (world_of rows0 fresh_rr) txn fresh_rr 7%N table);
    [reflexivity | discriminate].
Defined.

Lemma Read_shared_lock_release_policy_witness :
  ∃ r (w' : @World granting) (c' : @TwoPLContext granting) evs,
    Read txn 7%N table (world_of rows0 fresh_rc) = Returned r w'
    ∧ heap w' !! txn = Some c'
    ∧ trace w' = trace (world_of rows0 fresh_rc) ++ evs
    ∧ (isolation_level_ fresh_rc = IsolationLevel.READ_COMMITTED →
         (7%N ∈ shared_lock_set_ fresh_rc
          ∨ ((7%N ∉ exclusive_lock_set_ fresh_rc)
             ∧ lm_grants (txn_id_ fresh_rc) 7%N = true) →
            unlock_calls evs = [(txn_id_ fresh_rc, 7%N)]
            ∧ last evs = Some (EvUnlock (txn_id_ fresh_rc) 7%N))
         ∧ (7%N ∉ shared_lock_set_ c'))
    ∧ (isolation_level_ fresh_rc = IsolationLevel.REPEATABLE_READ
       ∨ isolation_level_ fresh_rc = IsolationLevel.SERIALIZABLE →
         unlock_calls evs = []
         ∧ shared_lock_set_ fresh_rc ⊆ shared_lock_set_ c'
         ∧ exclusive_lock_set_ c' = exclusive_lock_set_ fresh_rc).
Proof.
  apply (Read_shared_lock_release_policy
           (world_of rows0 fresh_rc) txn fresh_rc 7%N table);
    [reflexivity | discriminate].
Defined.

Lemma Read_keeps_exclusive_locks_witness :
  ∃ r (w' : @World granting) (c' : @TwoPLContext granting) evs,
    Read txn 7%N table (world_of rows1 writer_rc) = Returned r w'
    ∧ heap w' !! txn = Some c'
    ∧ trace w' = trace (world_of rows1 writer_rc) ++ evs
    ∧ (unlock_calls evs ≠ [] →
         isolation_level_ writer_rc = IsolationLevel.READ_COMMITTED
         ∧ unlock_calls evs = [(txn_id_ writer_rc, 7%N)]
         ∧ (7%N ∈ shared_lock_set_ writer_rc
            ∨ ((7%N ∉ exclusive_lock_set_ writer_rc)
               ∧ lm_grants (txn_id_ writer_rc) 7%N = true)))
    ∧ exclusive_lock_set_ c' = exclusive_lock_set_ writer_rc
    ∧ lock_sets_disjoint c'
    ∧ (7%N ∈ exclusive_lock_set_ writer_rc →
         unlock_calls evs = [] ∧ 7%N ∈ exclusive_lock_set_ c').
Proof.
  apply (Read_keeps_exclusive_locks
           (world_of rows1 writer_rc) txn writer_rc 7%N table);
    [reflexivity | discriminate
    | unfold lock_sets_disjoint, writer_rc, ctx; simpl;
      apply disjoint_empty_l].
Defined.

Lemma Read_GetTuple_failure_returns_SKIP_witness :
  ∃ (w' : @World granting) (c' : @TwoPLContext granting) evs,
    Read txn 9%N table (world_of rows0 fresh_rc)
    = Returned (ErrorCode.SKIP, None) w'
    ∧ heap w' !! txn = Some c'
    ∧ trace w' = trace (world_of rows0 fresh_rc) ++ evs
    ∧ (∀ e, e ∈ evs →
         e = EvLockShared (txn_id_ fresh_rc) 9%N ∨ e = EvGetTuple table 9%N
         ∨ e = EvUnlock (txn_id_ fresh_rc) 9%N)
    ∧ txn_map_ w' = txn_map_ (world_of rows0 fresh_rc)
    ∧ storage w' = storage (world_of rows0 fresh_rc)
    ∧ commit_action_ c' = commit_action_ fresh_rc
    ∧ abort_action_ c' = abort_action_ fresh_rc
    ∧ (lock_shared_calls evs = []
       ∨ lm_grants (txn_id_ fresh_rc) 9%N = true →
         state_ c' = state_ fresh_rc)
    ∧ (state_ c' = state_ fresh_rc →
         ∀ rid2 ti2, ∃ r w'', Read txn rid2 ti2 w' = Returned r w'').
Proof.
  apply (Read_GetTuple_failure_returns_SKIP
           (world_of rows0 fresh_rc) txn fresh_rc 9%N table);
    [reflexivity | discriminate | reflexivity].
Defined.

(** ** Further runs on the concrete table heap *)

Import Scenario.

Lemma finalization_ignores_state_at_entry_witness :
  Commit txn (mkWorld
      (<[txn := set_state TransactionState.ABORTED overlapping]>
          (heap w_overlapping)) (txn_map_ w_overlapping)
                    (next_txn_id_ w_overlapping) (storage w_overlapping)
                        (trace w_overlapping))
  = Commit txn w_overlapping
  ∧ Abort txn (mkWorld
      (<[txn := set_state TransactionState.ABORTED overlapping]>
          (heap w_overlapping)) (txn_map_ w_overlapping)
                     (next_txn_id_ w_overlapping) (storage w_overlapping)
                         (trace w_overlapping))
    = Abort txn w_overlapping.
Proof.
  apply (finalization_ignores_state_at_entry
           w_overlapping txn overlapping TransactionState.ABORTED);
    [ reflexivity ].
Defined.

Lemma Commit_applies_commit_queue_witness :
  ∃ w' evs, Commit txn w_overlapping = Returned tt w'
    ∧ trace w' = trace w_overlapping ++ evs
    ∧ actions_called evs = commit_action_ overlapping
    ∧ storage w'
      = foldl (λ s a, run_action a s) (storage w_overlapping)
          (commit_action_ overlapping)
    ∧ (commit_action_ overlapping = [] → storage w' = storage w_overlapping).
Proof.
  apply (Commit_applies_commit_queue
           w_overlapping txn overlapping);
    [ reflexivity ].
Defined.

Lemma finalization_leaves_other_transactions_witness :
  ∃ wc wa, Commit txn w_overlapping = Returned tt wc
      ∧ Abort txn w_overlapping = Returned tt wa
    ∧ heap wc = delete txn (heap w_overlapping) ∧ heap wa = delete txn
        (heap w_overlapping)
    ∧ txn_map_ wc = delete (txn_id_ overlapping) (txn_map_ w_overlapping)
    ∧ txn_map_ wa = delete (txn_id_ overlapping) (txn_map_ w_overlapping)
    ∧ (∀ q, q ≠ txn →
         heap wc !! q = heap w_overlapping !! q ∧ heap wa !! q
             = heap w_overlapping !! q)
    ∧ (∀ t, t ≠ txn_id_ overlapping →
         txn_map_ wc !! t = txn_map_ w_overlapping !! t
         ∧ txn_map_ wa !! t = txn_map_ w_overlapping !! t).
Proof.
  apply (finalization_leaves_other_transactions
           w_overlapping txn overlapping);
    [ reflexivity ].
Defined.

Lemma ReleaseAllLocks_idempotent_witness :
  ∃ w1, ReleaseAllLocks txn w_overlapping = Returned tt w1
    ∧ heap w1 = <[txn := set_lock_sets ∅ ∅ overlapping]> (heap w_overlapping)
    ∧ txn_map_ w1 = txn_map_ w_overlapping ∧ storage w1
        = storage w_overlapping
    ∧ ReleaseAllLocks txn w1 = Returned tt w1
    ∧ (shared_lock_set_ overlapping = ∅ → exclusive_lock_set_ overlapping
        = ∅ → w1 = w_overlapping).
Proof.
  apply (ReleaseAllLocks_idempotent
           w_overlapping txn overlapping);
    [ reflexivity ].
Defined.

Lemma no_operation_after_finalization_witness :
  ∃ wc wa, Commit txn w_overlapping = Returned tt wc
      ∧ Abort txn w_overlapping = Returned tt wa
    ∧ ∀ w', w' = wc ∨ w' = wa →
        Read txn 7%N table w' = Crashed (UseAfterFree txn) w'
        ∧ Insert txn tuple5 table w' = Crashed (UseAfterFree txn) w'
        ∧ Update txn tuple5 7%N table w' = Crashed (UseAfterFree txn) w'
        ∧ Delete txn 7%N table w' = Crashed (UseAfterFree txn) w'
        ∧ ReleaseAllLocks txn w' = Crashed (UseAfterFree txn) w'
        ∧ Commit txn w' = Crashed (UseAfterFree txn) w'
        ∧ Abort txn w' = Crashed (UseAfterFree txn) w'.
Proof.
  apply (no_operation_after_finalization
           w_overlapping txn overlapping 7%N tuple5 table);
    [ reflexivity ].
Defined.

Lemma write_operations_change_nothing_witness :
  Insert txn tuple5 table w_fresh_rr = Returned tt w_fresh_rr
  ∧ Update txn tuple5 7%N table w_fresh_rr = Returned tt w_fresh_rr
  ∧ Delete txn 7%N table w_fresh_rr = Returned tt w_fresh_rr.
Proof.
  apply (write_operations_change_nothing
           w_fresh_rr txn fresh_rr 7%N tuple5 table);
    [ reflexivity
    | discriminate ].
Defined.

Lemma Read_changes_only_own_locks_witness :
  ∃ r w' (c' : @TwoPLContext granting) evs, Read txn 7%N table w_fresh_rr
      = Returned r w'
    ∧ heap w' = <[txn := c']> (heap w_fresh_rr)
    ∧ trace w' = trace w_fresh_rr ++ evs
    ∧ txn_map_ w' = txn_map_ w_fresh_rr ∧ storage w' = storage w_fresh_rr
    ∧ next_txn_id_ w' = next_txn_id_ w_fresh_rr
    ∧ (∀ q, q ≠ txn → heap w' !! q = heap w_fresh_rr !! q)
    ∧ txn_id_ c' = txn_id_ fresh_rr
    ∧ isolation_level_ c' = isolation_level_ fresh_rr
    ∧ commit_action_ c' = commit_action_ fresh_rr
    ∧ abort_action_ c' = abort_action_ fresh_rr
    ∧ actions_called evs = [].
Proof.
  apply (Read_changes_only_own_locks
           w_fresh_rr txn fresh_rr 7%N table);
    [ reflexivity
    | discriminate ].
Defined.

Lemma Read_result_follows_GetTuple_witness :
  ∃ res got w', Read txn 7%N table w_fresh_rr = Returned (res, got) w'
    ∧ got = GetTuple (storage w_fresh_rr) table 7%N
    ∧ (∀ tuple, got = Some tuple → res = ErrorCode.OK)
    ∧ (got = None → res = ErrorCode.SKIP)
    ∧ (res = ErrorCode.OK ∨ res = ErrorCode.SKIP)
    ∧ ∃ evs, trace w' = trace w_fresh_rr ++ evs ∧ EvGetTuple table 7%N ∈ evs.
Proof.
  apply (Read_result_follows_GetTuple
           w_fresh_rr txn fresh_rr 7%N table);
    [ reflexivity
    | discriminate ].
Defined.

Lemma Read_again_requests_no_lock_witness :
  ∃ r1 w1 r2 w2, Read txn 7%N table w_fresh_rr = Returned r1 w1
    ∧ Read txn 7%N table w1 = Returned r2 w2
    ∧ trace w2 = trace w1 ++ [EvGetTuple table 7%N]
    ∧ heap w2 = heap w1.
Proof.
  apply (Read_again_requests_no_lock
           w_fresh_rr txn fresh_rr 7%N table table);
    [ reflexivity
    | discriminate
    | by left
    | reflexivity ].
Defined.

Lemma reads_then_finalize_two_phase_witness :
  ∃ w1 wc wa evs1 evsc evsa,
    for_each scan (λ rid, _ ← Read txn rid table; mret tt) w_fresh_rr
        = Returned tt w1
    ∧ Commit txn w1 = Returned tt wc
    ∧ Abort txn w1 = Returned tt wa
    ∧ trace w1 = trace w_fresh_rr ++ evs1
    ∧ trace wc = trace w1 ++ evsc
    ∧ trace wa = trace w1 ++ evsa
    ∧ unlock_calls evs1 = []
    ∧ lock_shared_calls evsc = [] ∧ lock_shared_calls evsa = []
    ∧ unlock_calls evsa = unlock_calls evsc
    ∧ NoDup (unlock_calls evsc)
    ∧ (∀ t rid, (t, rid) ∈ unlock_calls evsc ↔
         t = txn_id_ fresh_rr
         ∧ (rid ∈ scan ∨ rid ∈ shared_lock_set_ fresh_rr
            ∨ rid ∈ exclusive_lock_set_ fresh_rr))
    ∧ (∀ x, x ∈ lock_shared_calls evs1 → x ∈ unlock_calls evsc).
Proof.
  apply (reads_then_finalize_two_phase
           scan w_fresh_rr txn fresh_rr table);
    [ reflexivity
    | discriminate
    | by left
    | intros; reflexivity ].
Defined.

Lemma Read_uncommitted_only_fetches_witness :
  ∃ r w', Read txn 7%N table w_writer_ru = Returned r w'
    ∧ trace w' = trace w_writer_ru ++ [EvGetTuple table 7%N]
    ∧ heap w' = heap w_writer_ru.
Proof.
  apply (Read_uncommitted_only_fetches
           w_writer_ru txn writer_ru 7%N table);
    [ reflexivity
    | discriminate
    | reflexivity ].
Defined.

Lemma Read_committed_lock_round_trip_witness :
  ∃ r w', Read txn 7%N table w_fresh_rc = Returned r w'
    ∧ trace w' = trace w_fresh_rc ++ [EvLockShared (txn_id_ fresh_rc) 7%N;
                             EvGetTuple table 7%N;
                             EvUnlock (txn_id_ fresh_rc) 7%N]
    ∧ heap w' = heap w_fresh_rc.
Proof.
  apply (Read_committed_lock_round_trip
           w_fresh_rc txn fresh_rc 7%N table);
    [ reflexivity
    | discriminate
    | reflexivity
    | apply not_elem_of_empty
    | apply not_elem_of_empty
    | reflexivity ].
Defined.

Lemma reads_committed_keep_no_lock_witness :
  ∃ w' evs,
    for_each scan (λ rid, _ ← Read txn rid table; mret tt) w_deleter_rc
        = Returned tt w'
    ∧ trace w' = trace w_deleter_rc ++ evs
    ∧ heap w' = heap w_deleter_rc
    ∧ lock_shared_calls evs = unlock_calls evs
    ∧ (∀ t rid, (t, rid) ∈ lock_shared_calls evs ↔
         t = txn_id_ deleter_rc ∧ rid ∈ scan
             ∧ rid ∉ exclusive_lock_set_ deleter_rc).
Proof.
  apply (reads_committed_keep_no_lock
           scan w_deleter_rc txn deleter_rc table);
    [ reflexivity
    | discriminate
    | reflexivity
    | reflexivity
    | intros; reflexivity ].
Defined.

Lemma Read_goes_on_after_lock_refusal_witness :
  ∃ res w', Read (collab := refusing) txn 7%N victim_table victim_world
      = Returned (res, GetTuple (storage victim_world) victim_table 7%N) w'
    ∧ (is_Some (GetTuple (storage victim_world) victim_table 7%N) →
         res = ErrorCode.OK)
    ∧ heap w' !! txn = Some (set_state TransactionState.ABORTED victim_rr)
    ∧ trace w' = trace victim_world
        ++ [EvLockShared (txn_id_ victim_rr) 7%N;
            EvGetTuple victim_table 7%N]
    ∧ ∀ rid2 (ti2 : @TableInfo refusing),
        state_violation (Read (collab := refusing) txn rid2 ti2) w'.
Proof.
  apply (Read_goes_on_after_lock_refusal
           victim_world txn victim_rr 7%N victim_table);
    [ reflexivity
    | discriminate
    | discriminate
    | apply not_elem_of_empty
    | apply not_elem_of_empty
    | reflexivity ].
Defined.

End TwoPL.
